(** * SafeLVGL generator: declaration model, collector and wrapper emitter

    A shallow embedding of [SafeLVGL_Generator.py].  Python objects become
    records and inductive types, exceptions become an error monad, the
    generator's function list is threaded explicitly, and the objects that
    [copy.deepcopy] duplicates live in a store indexed by object identity. *)

From Stdlib Require Import String Ascii List Bool Arith NArith Lia Permutation.
From Stdlib Require Import DecimalString DecimalPos DecimalN.
From stdpp Require Import base gmap strings list.

Local Open Scope string_scope.
Local Open Scope list_scope.

(** String concatenation is written [+:+]; it computes under [cbn]. *)
#[local] Arguments String.append !s1 s2 : simpl nomatch.

(** ** Python exceptions and the error monad *)

(** The exception classes the generator can meet.  [EllipsisParamException]
    is declared in the source as a subclass of [NotImplementedError]; every
    other class here is unrelated to [NotImplementedError]. *)
Inductive exn : Type :=
| Exception (msg : string)
| NotImplementedError (msg : string)
| EllipsisParamException (msg : string)
| TypeError (msg : string)
| AttributeError (msg : string)
| IndexError (msg : string).

(** [except NotImplementedError] catches the class and its subclasses. *)
Definition is_NotImplementedError (e : exn) : bool :=
  match e with
  | NotImplementedError _ | EllipsisParamException _ => true
  | _ => false
  end.

Inductive result (A : Type) : Type :=
| Ok (a : A)
| Raise (e : exn).
Arguments Ok {A} a.
Arguments Raise {A} e.

#[global] Instance result_ret : MRet result := fun A a => Ok a.
#[global] Instance result_bind : MBind result := fun A B f m =>
  match m with
  | Ok a => f a
  | Raise e => Raise e
  end.

(** ** Python string operations *)

(** [s * n] for a string [s]. *)
Fixpoint str_repeat (s : string) (n : nat) : string :=
  match n with
  | O => ""
  | S k => s +:+ str_repeat s k
  end.

(** [a + b] where [b] is either a [str] or [None]. *)
Definition str_add (a : string) (b : option string) : result string :=
  match b with
  | Some b => Ok (a +:+ b)
  | None => Raise (TypeError "can only concatenate str (not NoneType) to str")
  end.

(** [a + b] where [a] is either a [str] or [None]. *)
Definition add_str (a : option string) (b : string) : result string :=
  match a with
  | Some a => Ok (a +:+ b)
  | None => Raise (TypeError "unsupported operand type(s) for +: NoneType and str")
  end.

(** [sep.join(l)]. *)
Definition join (sep : string) (l : list string) : string := String.concat sep l.

(** [s.replace(old, new)]: every non-overlapping occurrence of [old], scanned
    from the left, is replaced by [new].  [skip] counts the characters of a
    matched occurrence that are still to be dropped. *)
Fixpoint replace_from (skip : nat) (old new s : string) : string :=
  match s with
  | EmptyString => EmptyString
  | String c s' =>
      match skip with
      | S k => replace_from k old new s'
      | O =>
          if String.prefix old s
          then new +:+ replace_from (String.length old - 1) old new s'
          else String c (replace_from 0 old new s')
      end
  end.

Fixpoint interleave (new s : string) : string :=
  match s with
  | EmptyString => EmptyString
  | String c s' => String c (new +:+ interleave new s')
  end.

Definition replace (old new s : string) : string :=
  match old with
  | EmptyString => new +:+ interleave new s
  | _ => replace_from 0 old new s
  end.

(** A [for i in range(n)] loop whose body updates an accumulator and does
    not read [i]. *)
Fixpoint for_range {A : Type} (n : nat) (body : A -> A) (init : A) : A :=
  match n with
  | O => init
  | S k => body (for_range k body init)
  end.

(** ** DeclarationModel: [c_obj_decl] and [c_func_obj_decl] *)

(** The attributes set by [c_obj_decl.__init__].  [name] is [None] for the
    unnamed parameters the front-end delivers as [Typename] nodes.  The
    function constructor passes [align = ""], which joins to the same empty
    text as the empty list used here. *)
Record c_obj_fields : Type := mk_fields {
  name : option string;
  quals : list string;
  align : list string;
  storage : list string;
  type : string;
  array_layers : nat;
  pointer_layers : nat
}.

(** An instance is either a plain [c_obj_decl] or, by subclassing, a
    [c_func_obj_decl] carrying three more attributes. *)
#[warnings="-register-all"]
Inductive c_obj : Type :=
| c_obj_decl (self : c_obj_fields)
| c_func_obj_decl (self : c_obj_fields) (funcspec : list string)
    (return_type : string) (params : list c_obj).

Definition fields (o : c_obj) : c_obj_fields :=
  match o with
  | c_obj_decl self => self
  | c_func_obj_decl self _ _ _ => self
  end.

Definition set_name (o : c_obj) (n : option string) : c_obj :=
  let upd self := mk_fields n (quals self) (align self) (storage self)
                    (type self) (array_layers self) (pointer_layers self) in
  match o with
  | c_obj_decl self => c_obj_decl (upd self)
  | c_func_obj_decl self fs rt ps => c_func_obj_decl (upd self) fs rt ps
  end.

Definition type_to_str (self : c_obj_fields) (space : bool) : string :=
  let type_str := type self in
  if negb (Nat.eqb (pointer_layers self) 0) then
    let type_str := if space then type_str +:+ " " else type_str in
    for_range (pointer_layers self) (fun t => t +:+ "*") type_str
  else type_str.

Definition quals_to_str (self : c_obj_fields) : string := join " " (quals self).
Definition align_to_str (self : c_obj_fields) : string := join " " (align self).
Definition storage_to_str (self : c_obj_fields) : string := join " " (storage self).

(** [name_to_str] returns the attribute itself, hence possibly [None]; the
    in-place [name += "[]"] raises on [None]. *)
Definition name_to_str (self : c_obj_fields) (with_array : bool)
  : result (option string) :=
  if with_array then
    for_range (array_layers self)
      (fun acc => nm ← acc; s ← add_str nm "[]"; mret (Some s))
      (Ok (name self))
  else Ok (name self).

(** Truthiness of a string: non-empty. *)
Definition truthy (s : string) : bool := negb (String.eqb s "").

Definition neq_str (a b : string) : bool := negb (String.eqb a b).

(** [c_obj_decl.to_str]. *)
Definition obj_to_str (self : c_obj_fields) (semicolon with_array : bool)
  : result string :=
  let decl := "" in
  let quals := quals_to_str self in
  let decl := if truthy quals then decl +:+ (quals +:+ " ") else decl in
  let align := align_to_str self in
  let decl := if truthy align then decl +:+ (align +:+ " ") else decl in
  let storage := storage_to_str self in
  let decl := if truthy storage then decl +:+ (storage +:+ " ") else decl in
  decl ← (if neq_str (type_to_str self true) "void" then
            nm ← name_to_str self with_array;
            tail ← str_add (type_to_str self true +:+ " ") nm;
            mret (decl +:+ tail)
          else mret (decl +:+ type_to_str self true));
  let decl := if semicolon then decl +:+ ";" else decl in
  mret decl.

(** The call [param.to_str(semicolon = False, with_array = True)] made by
    [params_to_str]: the override in [c_func_obj_decl] has no [with_array]
    parameter, so a function-typed parameter raises. *)
Definition to_str_kw (o : c_obj) (semicolon with_array : bool) : result string :=
  match o with
  | c_obj_decl self => obj_to_str self semicolon with_array
  | c_func_obj_decl _ _ _ _ =>
      Raise (TypeError "to_str() got an unexpected keyword argument with_array")
  end.

Definition funcspec_to_str (funcspec : list string) : string := join " " funcspec.

Fixpoint params_to_str_loop (ps : list c_obj) (acc : list string)
  : result (list string) :=
  match ps with
  | [] => Ok acc
  | param :: ps' =>
      s ← to_str_kw param false true;
      params_to_str_loop ps' (acc ++ [s])
  end.

Definition params_to_str (params : list c_obj) : result string :=
  l ← params_to_str_loop params [];
  mret (join ", " l).

(** [c_func_obj_decl.to_str]. *)
Definition func_to_str (self : c_obj_fields) (funcspec : list string)
  (params : list c_obj) (semicolon : bool) : result string :=
  let decl := "" in
  let quals := quals_to_str self in
  let decl := if truthy quals then quals +:+ " " else decl in
  let storage := storage_to_str self in
  let decl := if truthy storage then decl +:+ (storage +:+ " ") else decl in
  let funcspec := funcspec_to_str funcspec in
  let decl := if truthy funcspec then decl +:+ (funcspec +:+ " ") else decl in
  nm ← name_to_str self true;
  head ← str_add (type_to_str self true +:+ " ") nm;
  ps ← params_to_str params;
  let decl := decl +:+ (head +:+ "(" +:+ ps +:+ ")") in
  let decl := if semicolon then decl +:+ ";" else decl in
  mret decl.

(** [obj.to_str(False)], dispatched on the class of [obj]. *)
Definition to_str (o : c_obj) (semicolon : bool) : result string :=
  match o with
  | c_obj_decl self => obj_to_str self semicolon false
  | c_func_obj_decl self funcspec _ params =>
      func_to_str self funcspec params semicolon
  end.

(** The body of the index loop of [gen_func_call], at index [i]. *)
Definition gen_func_param_body (params : list c_obj) (acc : result string) (i : nat)
  : result string :=
  let param_nums := length params in
  func_param ← acc;
  match params !! i with
  | None => Raise (IndexError "list index out of range")
  | Some p =>
      if Nat.ltb i (param_nums - 1) then
        if neq_str (type_to_str (fields p) true) "void" then
          piece ← add_str (name (fields p)) ", ";
          mret (func_param +:+ piece)
        else mret func_param
      else
        if neq_str (type_to_str (fields p) true) "void" then
          str_add func_param (name (fields p))
        else mret func_param
  end.

(** The argument text built by the index loop of [gen_func_call]. *)
Definition gen_func_param (params : list c_obj) : result string :=
  let param_nums := length params in
  fold_left (gen_func_param_body params) (seq 0 param_nums) (Ok "").

(** [c_func_obj_decl.gen_func_call]; a plain [c_obj_decl] has no such
    method. *)
Definition gen_func_call (o : c_obj) : result string :=
  match o with
  | c_obj_decl _ =>
      Raise (AttributeError "c_obj_decl object has no attribute gen_func_call")
  | c_func_obj_decl self _ _ params =>
      let func_call := "" in
      func_param ← gen_func_param params;
      if neq_str (type_to_str self true) "void" then
        pre ← str_add (type_to_str self true +:+ " ret = ") (name self);
        mret (func_call +:+ (pre +:+ "(" +:+ func_param +:+ ");"))
      else
        pre ← add_str (name self) "(";
        mret (func_call +:+ (pre +:+ func_param +:+ ");"))
  end.

(** ** The front-end's syntax tree (the node classes of [pycparser.c_ast]
    that the generator inspects) *)

(** Attributes that the front-end leaves unset are [None].  [FuncDecl.args]
    is the parameter list, or [None] for an empty pair of parentheses. *)
#[warnings="-register-all"]
Inductive node : Type :=
| Decl (name : option string) (quals : list string) (align : list node)
    (storage funcspec : list string) (type : node)
| FuncDef (decl : node)
| FuncDecl (args : option (list node)) (type : node)
| ArrayDecl (type : node)
| PtrDecl (type : node)
| TypeDecl (type : node)
| Typename (name : option string) (quals : list string) (type : node)
| IdentifierType (names : list string)
| Struct (name : option string)
| Union (name : option string)
| Enum (name : option string)
| EllipsisParam
| Typedef (name : option string) (type : node).

(** ** TypeResolver: [__get_nesting_type__] *)

(** [while isinstance(child_node, ArrayDecl)]: count and descend. *)
Fixpoint strip_ArrayDecl (child_node : node) (layers : nat) : node * nat :=
  match child_node with
  | ArrayDecl t => strip_ArrayDecl t (layers + 1)
  | _ => (child_node, layers)
  end.

(** [while isinstance(child_node, PtrDecl)]: count and descend. *)
Fixpoint strip_PtrDecl (child_node : node) (layers : nat) : node * nat :=
  match child_node with
  | PtrDecl t => strip_PtrDecl t (layers + 1)
  | _ => (child_node, layers)
  end.

(** Returns [(c_obj_type, c_obj_array_layers, c_obj_pointer_layers)].  The
    messages that the source completes with [str(node)] are kept up to that
    point, here and in [c_decl_to_c_obj]. *)
Definition get_nesting_type (n : node) : result (string * nat * nat) :=
  let c_obj_array_layers := 0 in
  let c_obj_pointer_layers := 0 in
  let '(child_node, c_obj_array_layers) := strip_ArrayDecl n c_obj_array_layers in
  let '(child_node, c_obj_pointer_layers) :=
    strip_PtrDecl child_node c_obj_pointer_layers in
  let child_node :=
    match child_node with
    | Typename _ _ t => t
    | _ => child_node
    end in
  match child_node with
  | TypeDecl parent_type =>
      match parent_type with
      | Struct tag =>
          t ← str_add "struct " tag;
          mret (t, c_obj_array_layers, c_obj_pointer_layers)
      | IdentifierType names =>
          match names with
          | first :: _ => mret (first, c_obj_array_layers, c_obj_pointer_layers)
          | [] => Raise (IndexError "list index out of range")
          end
      | _ => Raise (Exception "Unknown type in TypeDecl: ")
      end
  | _ => Raise (Exception "Unknown type: ")
  end.

(** ** [c_decl_to_c_obj] *)

Fixpoint c_decl_to_c_obj (n : node) : result c_obj :=
  match n with
  | Decl c_obj_name c_obj_quals node_align c_obj_storage c_obj_funcspec node_type =>
      if negb (Nat.eqb (length node_align) 0)
      then Raise (Exception "Align is not supported temporarily.")
      else
        match node_type with
        | ArrayDecl _ =>
            '(t, a, p) ← get_nesting_type node_type;
            mret (c_obj_decl (mk_fields c_obj_name c_obj_quals [] c_obj_storage t a p))
        | Decl _ _ _ _ _ _ =>
            Raise (Exception "The Decl should no longer appear in the Decl.")
        | Enum tag =>
            t ← str_add "enum " tag;
            mret (c_obj_decl (mk_fields c_obj_name c_obj_quals [] c_obj_storage t 0 0))
        | FuncDecl args ret_type =>
            match args with
            | None => Raise (TypeError "NoneType object is not iterable")
            | Some ps =>
                c_obj_params ←
                  (fix each (ps : list node) (acc : list c_obj)
                     : result (list c_obj) :=
                     match ps with
                     | [] => Ok acc
                     | param :: ps' =>
                         o ← c_decl_to_c_obj param;
                         each ps' (acc ++ [o])
                     end) ps [];
                '(t, a, p) ← get_nesting_type ret_type;
                mret (c_func_obj_decl
                        (mk_fields c_obj_name c_obj_quals [] c_obj_storage t a p)
                        c_obj_funcspec t c_obj_params)
            end
        | PtrDecl _ =>
            '(t, a, p) ← get_nesting_type node_type;
            mret (c_obj_decl (mk_fields c_obj_name c_obj_quals [] c_obj_storage t a p))
        | TypeDecl _ =>
            '(t, a, p) ← get_nesting_type node_type;
            mret (c_obj_decl (mk_fields c_obj_name c_obj_quals [] c_obj_storage t a p))
        | Typename _ _ inner =>
            _ ← get_nesting_type inner;
            Raise (Exception "TODO.")
        | _ => Raise (Exception "Types that should not appear: ")
        end
  | TypeDecl _ =>
      '(t, a, p) ← get_nesting_type n;
      mret (c_obj_decl (mk_fields (Some "") [] [] [] t a p))
  | Typename c_obj_name c_obj_quals node_type =>
      match node_type with
      | TypeDecl _ =>
          '(t, a, p) ← get_nesting_type n;
          mret (c_obj_decl (mk_fields c_obj_name c_obj_quals [] [] t a p))
      | _ => Raise (Exception "TODO, node: ")
      end
  | EllipsisParam =>
      Raise (EllipsisParamException "EllipsisParam is not supported temporarily.")
  | _ => Raise (TypeError "Should not appear other types, node: ")
  end.

(** ** Compiled patterns ([re.Pattern]) and [Pattern.match]

    The regular fragment of Python's pattern language, with the
    start-of-string anchor.  Groups and the [{1}] quantifier do not change
    which strings match and are dropped by the translation of a pattern. *)
Module re.

Inductive Pattern : Type :=
| Void                      (* no string *)
| Eps                       (* the empty string *)
| Bol                       (* ^ *)
| Chr (c : ascii)           (* a literal character *)
| Rng (lo hi : ascii)       (* [lo-hi] *)
| Seq (r1 r2 : Pattern)
| Alt (r1 r2 : Pattern)     (* r1|r2 *)
| Star (r : Pattern).       (* r* *)

(** [r+]. *)
Definition Plus (r : Pattern) : Pattern := Seq r (Star r).

(** A literal word. *)
Fixpoint Lit (s : string) : Pattern :=
  match s with
  | EmptyString => Eps
  | String c s' => Seq (Chr c) (Lit s')
  end.

Definition in_range (lo hi c : ascii) : bool :=
  (nat_of_ascii lo <=? nat_of_ascii c)%nat && (nat_of_ascii c <=? nat_of_ascii hi)%nat.

Definition is_empty (w : string) : bool :=
  match w with EmptyString => true | _ => false end.

(** [matches b r w]: the pattern [r] matches exactly the text [w]; [b] tells
    whether [w] starts at the beginning of the subject string. *)
Inductive matches : bool -> Pattern -> string -> Prop :=
| m_eps b : matches b Eps ""
| m_bol : matches true Bol ""
| m_chr b c : matches b (Chr c) (String c "")
| m_rng b lo hi c : in_range lo hi c = true -> matches b (Rng lo hi) (String c "")
| m_seq b r1 r2 w1 w2 :
    matches b r1 w1 -> matches (b && is_empty w1) r2 w2 ->
    matches b (Seq r1 r2) (w1 +:+ w2)
| m_alt_l b r1 r2 w : matches b r1 w -> matches b (Alt r1 r2) w
| m_alt_r b r1 r2 w : matches b r2 w -> matches b (Alt r1 r2) w
| m_star_nil b r : matches b (Star r) ""
| m_star_cons b r c w1 w2 :
    matches b r (String c w1) -> matches false (Star r) w2 ->
    matches b (Star r) (String c w1 +:+ w2).

(** Can [r] match the empty text (at the start of the subject when [b])? *)
Fixpoint nullable (b : bool) (r : Pattern) : bool :=
  match r with
  | Void => false
  | Eps => true
  | Bol => b
  | Chr _ => false
  | Rng _ _ => false
  | Seq r1 r2 => nullable b r1 && nullable b r2
  | Alt r1 r2 => nullable b r1 || nullable b r2
  | Star _ => true
  end.

(** What remains to be matched after reading [c]; the remainder is always
    matched away from the start of the subject. *)
Fixpoint deriv (b : bool) (c : ascii) (r : Pattern) : Pattern :=
  match r with
  | Void => Void
  | Eps => Void
  | Bol => Void
  | Chr d => if Ascii.eqb c d then Eps else Void
  | Rng lo hi => if in_range lo hi c then Eps else Void
  | Seq r1 r2 =>
      Alt (Seq (deriv b c r1) r2)
          (if nullable b r1 then deriv b c r2 else Void)
  | Alt r1 r2 => Alt (deriv b c r1) (deriv b c r2)
  | Star r => Seq (deriv b c r) (Star r)
  end.

Fixpoint match_from (b : bool) (r : Pattern) (s : string) : bool :=
  nullable b r ||
  match s with
  | EmptyString => false
  | String c s' => match_from false (deriv b c r) s'
  end.

(** [pattern.match(string)] looks for a match beginning at position 0; the
    result is a match object (truthy) or [None].  A subject that is [None]
    raises. *)
Definition match_ (pattern : Pattern) (subject : option string) : result bool :=
  match subject with
  | Some s => Ok (match_from true pattern s)
  | None => Raise (TypeError "expected string or bytes-like object")
  end.

End re.

(** ** FunctionCollector *)

Inductive level : Type := DEBUG | INFO | WARNING.

(** The attributes of a [SafeLVGL_Generator] instance that collection reads
    and writes; [logger] holds the records emitted so far. *)
Record generator : Type := mk_generator {
  blacklist_func_patterns : list re.Pattern;
  func_list : list c_obj;
  logger : list (level * string)
}.

Definition log (self : generator) (lv : level) (msg : string) : generator :=
  mk_generator (blacklist_func_patterns self) (func_list self)
    (logger self ++ [(lv, msg)]).

Definition append_func (self : generator) (func : c_obj) : generator :=
  mk_generator (blacklist_func_patterns self) (func_list self ++ [func])
    (logger self).

(** The default strategy of [load_default_block_strategy]: [^(_lv){1}]. *)
Definition default_block_strategy : list re.Pattern :=
  [re.Seq re.Bol (re.Lit "_lv")].

(** The text that [str.format] substitutes for a name. *)
Definition format_arg (a : option string) : string :=
  match a with
  | Some s => s
  | None => "None"
  end.

(** [func_node.name]. *)
Definition node_name (n : node) : result (option string) :=
  match n with
  | Decl nm _ _ _ _ _ | Typename nm _ _ | Struct nm | Union nm | Enum nm
  | Typedef nm _ => Ok nm
  | _ => Raise (AttributeError "object has no attribute name")
  end.

(** The blacklist loop: [Ok true] when some pattern matched, which is where
    the source returns early. *)
Fixpoint in_blacklist (patterns : list re.Pattern) (func_name : option string)
  : result bool :=
  match patterns with
  | [] => Ok false
  | func_pattern :: rest =>
      match re.match_ func_pattern func_name with
      | Raise e => Raise e
      | Ok true => Ok true
      | Ok false => in_blacklist rest func_name
      end
  end.

Definition option_string_eqb (a b : option string) : bool :=
  match a, b with
  | Some x, Some y => String.eqb x y
  | None, None => true
  | _, _ => false
  end.

(** The duplicate loop: is [func_name] the name of a collected function? *)
Definition already_added (funcs : list c_obj) (func_name : option string) : bool :=
  existsb (fun func => option_string_eqb func_name (name (fields func))) funcs.

Definition exn_str (e : exn) : string :=
  match e with
  | Exception m | NotImplementedError m | EllipsisParamException m
  | TypeError m | AttributeError m | IndexError m => m
  end.

(** [__add_lvgl_func__]: the generator after the call, and the returned
    boolean or the exception that leaves the method. *)
Definition add_lvgl_func (self : generator) (func_node : node)
  : generator * result bool :=
  match node_name func_node with
  | Raise e => (self, Raise e)
  | Ok func_name =>
      match in_blacklist (blacklist_func_patterns self) func_name with
      | Raise e => (self, Raise e)
      | Ok true =>
          (log self INFO ("Function " +:+ format_arg func_name +:+ " is in blacklist."),
           Ok false)
      | Ok false =>
          if already_added (func_list self) func_name then (self, Ok false)
          else
            match c_decl_to_c_obj func_node with
            | Ok func => (append_func self func, Ok true)
            | Raise e =>
                if is_NotImplementedError e then
                  match str_add "Parse function error: " func_name with
                  | Raise e' => (self, Raise e')
                  | Ok m =>
                      (log self WARNING (m +:+ " error: " +:+ exn_str e), Ok false)
                  end
                else (self, Raise e)
            end
      end
  end.

(** The loop of [__parse_header__] over [ast.ext]; an exception leaving
    [__add_lvgl_func__] ends the loop and leaves the method. *)
Fixpoint parse_header_loop (self : generator) (ext : list node)
  : generator * result unit :=
  match ext with
  | [] => (self, Ok tt)
  | n :: rest =>
      let '(self', r) :=
        match n with
        | FuncDef decl => add_lvgl_func self decl
        | Decl _ _ _ _ _ (FuncDecl _ _) => add_lvgl_func self n
        | _ => (self, Ok false)
        end in
      match r with
      | Ok _ => parse_header_loop self' rest
      | Raise e => (self', Raise e)
      end
  end.

(** [__parse_header__]: [ext] is [ast.ext], the translation unit that the
    front-end returns for [header_path]. *)
Definition parse_header (self : generator) (header_path : string) (ext : list node)
  : generator * result nat :=
  let self := log self INFO ("Parsing " +:+ header_path +:+ " ...") in
  let '(self', r) := parse_header_loop self ext in
  match r with
  | Ok _ => (self', Ok (length (func_list self')))
  | Raise e => (self', Raise e)
  end.

(** ** Version metadata scan: [get_lvgl_version] *)

Definition LF : ascii := "010"%char.
Definition CR : ascii := "013"%char.

(** What a file opened in text mode, as [open(path)] and [open(path, "r")]
    do, delivers for the stored text: a line ends at a line feed, at a
    carriage return, or at a carriage return directly followed by a line
    feed, and each of these ends is handed over as a single line feed. *)
Fixpoint universal_newlines (content : string) : string :=
  match content with
  | EmptyString => ""
  | String c rest =>
      if Ascii.eqb c CR then
        match rest with
        | String c' rest' =>
            if Ascii.eqb c' LF then String LF (universal_newlines rest')
            else String LF (universal_newlines rest)
        | EmptyString => String LF ""
        end
      else String c (universal_newlines rest)
  end.

(** The pieces of a text, each ending after a line feed; the last one ends
    with the text. None is empty. *)
Fixpoint split_lines (text : string) : list string :=
  match text with
  | EmptyString => []
  | String c rest =>
      if Ascii.eqb c LF then String c "" :: split_lines rest
      else match split_lines rest with
           | [] => [String c ""]
           | l :: ls => String c l :: ls
           end
  end.

(** The strings that [readlines()], or successive [readline()] calls, return
    for a file with the given stored text: each line keeps its line feed, and
    none is empty, so the source's [while(line)] visits every one of them. *)
Definition readlines (content : string) : list string :=
  split_lines (universal_newlines content).

Fixpoint strip_prefix (p s : string) : option string :=
  match p with
  | EmptyString => Some s
  | String a p' =>
      match s with
      | String b s' => if Ascii.eqb a b then strip_prefix p' s' else None
      | EmptyString => None
      end
  end.

Definition is_space (c : ascii) : bool := Ascii.eqb c " ".
Definition is_digit (c : ascii) : bool := re.in_range "0" "9" c.

Fixpoint skip_spaces (s : string) : string :=
  match s with
  | String c s' => if is_space c then skip_spaces s' else s
  | EmptyString => s
  end.

(** [[ ]+]: one or more spaces, as many as there are. *)
Definition spaces1 (s : string) : option string :=
  match s with
  | String c s' => if is_space c then Some (skip_spaces s') else None
  | EmptyString => None
  end.

(** [[0-9]+] at the end of the pattern: the longest run of digits. *)
Fixpoint take_digits (s : string) : string :=
  match s with
  | String c s' => if is_digit c then String c (take_digits s') else ""
  | EmptyString => ""
  end.

(** The pattern [^(\#define){1}[ ]+(MACRO){1}[ ]+(?P<g>[0-9]+)] compiled
    with [re.X], as a [re.Pattern]. *)
Definition version_regex (macro : string) : re.Pattern :=
  re.Seq re.Bol
    (re.Seq (re.Lit "#define")
       (re.Seq (re.Plus (re.Chr " "))
          (re.Seq (re.Lit macro)
             (re.Seq (re.Plus (re.Chr " ")) (re.Plus (re.Rng "0" "9")))))).

(** [pattern.match(line)] for that pattern, returning the text of the named
    group on success and [None] otherwise. *)
Definition version_match (macro line : string) : option string :=
  rest ← strip_prefix "#define" line;
  rest ← spaces1 rest;
  rest ← strip_prefix macro rest;
  rest ← spaces1 rest;
  match take_digits rest with
  | EmptyString => None
  | digits => Some digits
  end.

(** [int(s)] for a string of decimal digits. *)
Definition digit_value (c : ascii) : N := N.of_nat (nat_of_ascii c - 48).

Fixpoint int_digits (s : string) (acc : N) : N :=
  match s with
  | EmptyString => acc
  | String c s' => int_digits s' (acc * 10 + digit_value c)
  end.

Definition int (s : string) : N := int_digits s 0.

(** The three version attributes of the generator. *)
Record lvgl_version : Type := mk_version {
  lvgl_version_major : N;
  lvgl_version_minor : N;
  lvgl_version_patch : N
}.

Definition major_macro := "LVGL_VERSION_MAJOR".
Definition minor_macro := "LVGL_VERSION_MINOR".
Definition patch_macro := "LVGL_VERSION_PATCH".

(** One field's step of the loop body: [if(not field): ret = match(line);
    if(ret is not None): field = int(ret.group(...))]. *)
Definition scan_field (macro : string) (field : N) (line : string) : N :=
  if N.eqb field 0 then
    match version_match macro line with
    | Some digits => int digits
    | None => field
    end
  else field.

(** [line.replace('\r','').replace('\n','')]. *)
Definition strip_eol (line : string) : string :=
  replace (String LF "") "" (replace (String CR "") "" line).

(** The body of the [while(line)] loop. *)
Definition scan_line (v : lvgl_version) (line : string) : lvgl_version :=
  let line := strip_eol line in
  let major := scan_field major_macro (lvgl_version_major v) line in
  let minor := scan_field minor_macro (lvgl_version_minor v) line in
  let patch := scan_field patch_macro (lvgl_version_patch v) line in
  mk_version major minor patch.

(** [get_lvgl_version] on the text of [lvgl.h]: the attributes after the
    call and the returned list. *)
Definition get_lvgl_version (lvgl_h : string) : lvgl_version * list N :=
  let v := mk_version 0 0 0 in
  let v := fold_left scan_line (readlines lvgl_h) v in
  (v, [lvgl_version_major v; lvgl_version_minor v; lvgl_version_patch v]).

(** ** WrapperEmitter: [__gen_func_def__] and [__gen_func_decl__] *)

(** Object identities, and the store of the function objects built by the
    collector.  The generator assigns to no attribute of the objects a
    function object owns (its parameter objects and its lists), so a
    function object is stored together with them as one cell. *)
Definition loc := positive.

(** [copy.deepcopy(x)]: a new object with the contents of [x]. *)
Definition deepcopy (σ : gmap loc c_obj) (x : loc) : option (gmap loc c_obj * loc) :=
  o ← σ !! x;
  let y := fresh (dom σ) in
  Some (<[y := o]> σ, y).

(** [y.name = v]. *)
Definition setattr_name (σ : gmap loc c_obj) (y : loc) (v : option string)
  : option (gmap loc c_obj) :=
  o ← σ !! y;
  Some (<[y := set_name o v]> σ).

(** The common body of the two generators, which differ in the template and
    in one word of the debug message.  The debug records and the dropped
    result of [__replace_variables__] are not kept.  The outer [option] is
    [None] only for an identity that denotes no object. *)
Definition gen_func (template : string) (σ : gmap loc c_obj) (function : loc)
  : option (gmap loc c_obj * result string) :=
  f ← σ !! function;
  match str_add "Generating function " (name (fields f)) with
  | Raise e => Some (σ, Raise e)
  | Ok _ =>
      let func_def := template in
      '(σ, safe_func_decl) ← deepcopy σ function;
      f ← σ !! function;
      match str_add "safe_" (name (fields f)) with
      | Raise e => Some (σ, Raise e)
      | Ok safe_name =>
          σ ← setattr_name σ safe_func_decl (Some safe_name);
          safe ← σ !! safe_func_decl;
          function ← σ !! function;
          Some (σ,
                decl ← to_str safe false;
                let func_def := replace "${func_decl}" decl func_def in
                call ← gen_func_call function;
                let func_def := replace "${func_call}" call func_def in
                let func_def :=
                  if neq_str (type (fields function)) "void"
                  then replace "${func_ret}" "return ret;" func_def
                  else replace "${func_ret}" "" func_def in
                let func_def := replace "${func_comms}" "" func_def in
                mret func_def)
      end
  end.

Definition gen_func_def (template_func_def : string) :=
  gen_func template_func_def.

Definition gen_func_decl (template_func_decl : string) :=
  gen_func template_func_decl.

(** ** Notions used in the statements, and sample inputs *)

(** The pointer part of a rendered type: nothing for depth 0, otherwise a
    space and one asterisk per level. *)
Definition pointer_suffix (P : nat) : string :=
  match P with
  | O => ""
  | S _ => " " +:+ str_repeat "*" P
  end.

(** The text [to_str] puts before the type: the space-joined qualifiers,
    alignment and storage specifiers, each followed by a space when it is
    not empty. *)
Definition specifiers (self : c_obj_fields) : string :=
  (if truthy (quals_to_str self) then quals_to_str self +:+ " " else "")
  +:+ (if truthy (align_to_str self) then align_to_str self +:+ " " else "")
  +:+ (if truthy (storage_to_str self) then storage_to_str self +:+ " " else "").

Definition semicolon_str (semicolon : bool) : string :=
  if semicolon then ";" else "".

(** A parameter is kept in the call when its rendered type is not [void]. *)
Definition kept (p : c_obj) : bool :=
  neq_str (type_to_str (fields p) true) "void".

(** The index loop of [gen_func_call], by recursion on the parameters that
    are still to be visited. *)
Fixpoint args_loop (ps : list c_obj) (func_param : string) : result string :=
  match ps with
  | [] => Ok func_param
  | p :: ps' =>
      match ps' with
      | [] => if kept p then str_add func_param (name (fields p)) else Ok func_param
      | _ :: _ =>
          if kept p then
            piece ← add_str (name (fields p)) ", ";
            args_loop ps' (func_param +:+ piece)
          else args_loop ps' func_param
      end
  end.

(** The names of the kept parameters, in order. *)
Definition kept_names (ps : list c_obj) : list (option string) :=
  map (fun p => name (fields p)) (List.filter kept ps).

(** The declaration [void f(int a, void)] as the front-end delivers it. *)
Definition decl_f_int_void : node :=
  Decl (Some "f") [] [] [] []
    (FuncDecl
       (Some [Decl (Some "a") [] [] [] [] (TypeDecl (IdentifierType ["int"]));
              Typename None [] (TypeDecl (IdentifierType ["void"]))])
       (TypeDecl (IdentifierType ["void"]))).

(** The declaration [void h(int)], whose parameter has no name. *)
Definition decl_h_unnamed : node :=
  Decl (Some "h") [] [] [] []
    (FuncDecl (Some [Typename None [] (TypeDecl (IdentifierType ["int"]))])
       (TypeDecl (IdentifierType ["void"]))).

(** The function [void *g(void)] as the front-end delivers it, and the
    object the collector builds for it. *)
Definition decl_g_void_ptr : node :=
  Decl (Some "g") [] [] [] []
    (FuncDecl (Some [Typename None [] (TypeDecl (IdentifierType ["void"]))])
       (PtrDecl (TypeDecl (IdentifierType ["void"])))).

Definition func_g_void_ptr : c_obj :=
  c_func_obj_decl (mk_fields (Some "g") [] [] [] "void" 0 1) [] "void"
    [c_obj_decl (mk_fields None [] [] [] "void" 0 0)].

(** [A] array levels around [t], and [P] pointer levels around [t]. *)
Fixpoint array_of (A : nat) (t : node) : node :=
  match A with
  | O => t
  | S k => ArrayDecl (array_of k t)
  end.

Fixpoint pointer_to (P : nat) (t : node) : node :=
  match P with
  | O => t
  | S k => PtrDecl (pointer_to k t)
  end.

Definition void_t : node := TypeDecl (IdentifierType ["void"]).
Definition int_t : node := TypeDecl (IdentifierType ["int"]).
Definition void_param : node := Typename None [] void_t.

(** [union U u(void);], [void f(void);] and [int v(int a, ...);]. *)
Definition decl_u_union : node :=
  Decl (Some "u") [] [] [] [] (FuncDecl (Some [void_param]) (TypeDecl (Union (Some "U")))).
Definition decl_f_void : node :=
  Decl (Some "f") [] [] [] [] (FuncDecl (Some [void_param]) void_t).
Definition decl_v_variadic : node :=
  Decl (Some "v") [] [] [] []
    (FuncDecl (Some [Decl (Some "a") [] [] [] [] int_t; EllipsisParam]) int_t).

(** A generator as the constructor leaves it. *)
Definition new_generator : generator := mk_generator default_block_strategy [] [].

(** The names of the collected functions, in order. *)
Definition collected_names (self : generator) : list (option string) :=
  map (fun f => name (fields f)) (func_list self).

(** The declaration that the loop of [__parse_header__] hands to
    [__add_lvgl_func__] for a top-level node, if any. *)
Definition function_node (n : node) : option node :=
  match n with
  | FuncDef decl => Some decl
  | Decl _ _ _ _ _ (FuncDecl _ _) => Some n
  | _ => None
  end.

(** The call the loop makes for one top-level node. *)
Definition visit (self : generator) (n : node) : generator * result bool :=
  match function_node n with
  | Some d => add_lvgl_func self d
  | None => (self, Ok false)
  end.

(** Where a function node's conversion came from. *)
Definition converted_from (ext : list node) (f : c_obj) : Prop :=
  exists n d, In n ext /\ function_node n = Some d /\ c_decl_to_c_obj d = Ok f.

(** [int lv_foo(void);] and [void lv_foo(void);]. *)
Definition decl_lv_foo_int : node :=
  Decl (Some "lv_foo") [] [] [] [] (FuncDecl (Some [void_param]) int_t).
Definition decl_lv_foo_void : node :=
  Decl (Some "lv_foo") [] [] [] [] (FuncDecl (Some [void_param]) void_t).

(** Following the specification's words: the integers captured on the lines
    that match a field's pattern, in file order; and the value a field
    takes, which is the first of them that is not zero, or zero when there
    is none. *)
Definition matched_values (macro : string) (lines : list string) : list N :=
  omap (fun line => int <$> version_match macro (strip_eol line)) lines.

Definition first_nonzero (values : list N) : N :=
  hd 0%N (filter (fun v : N => v <> 0%N) values).

(** Each field of the file is given at most one non-zero value. *)
Definition single_valued (lines : list string) : Prop :=
  forall macro, In macro [major_macro; minor_macro; patch_macro] ->
    forall x y,
      In x (filter (fun v : N => v <> 0%N) (matched_values macro lines)) ->
      In y (filter (fun v : N => v <> 0%N) (matched_values macro lines)) ->
      x = y.

(** A field after the loop: kept when already set, otherwise resolved from
    the lines. *)
Definition resolve (macro : string) (field : N) (lines : list string) : N :=
  if N.eqb field 0 then first_nonzero (matched_values macro lines) else field.

Definition version_example : string :=
  "#define LVGL_VERSION_PATCH 1" +:+ String LF ""
  +:+ "#define LVGL_VERSION_MAJOR 9" +:+ String LF ""
  +:+ "#define LVGL_VERSION_MINOR 2" +:+ String LF "".

Definition version_example_reordered : string :=
  "#define LVGL_VERSION_MAJOR 9" +:+ String LF ""
  +:+ "#define LVGL_VERSION_MINOR 2" +:+ String LF ""
  +:+ "#define LVGL_VERSION_PATCH 1" +:+ String LF "".

(** Every character of a text satisfies a test. *)
Fixpoint all_chars (ok : ascii -> bool) (s : string) : bool :=
  match s with
  | EmptyString => true
  | String c s' => ok c && all_chars ok s'
  end.

(** The loop [for param in node.type.args] of [c_decl_to_c_obj], on its
    own: the parameters are converted in order and the first failure leaves
    the loop. *)
Fixpoint convert_params (ps : list node) (acc : list c_obj) : result (list c_obj) :=
  match ps with
  | [] => Ok acc
  | param :: ps' =>
      o ← c_decl_to_c_obj param;
      convert_params ps' (acc ++ [o])
  end.

(** [add_blacklist_func_pattern] and [list_blacklist_func_patterns]. *)
Definition add_blacklist_func_pattern (self : generator) (func_pattern : re.Pattern)
  : generator :=
  mk_generator (blacklist_func_patterns self ++ [func_pattern]) (func_list self)
    (logger self).

Definition list_blacklist_func_patterns (self : generator) : list re.Pattern :=
  blacklist_func_patterns self.

(** The text [c_func_obj_decl.to_str] puts before the return type: the
    space-joined qualifiers, storage and function specifiers, each followed
    by a space when it is not empty; there is no alignment part. *)
Definition function_specifiers (self : c_obj_fields) (funcspec : list string) : string :=
  (if truthy (quals_to_str self) then quals_to_str self +:+ " " else "")
  +:+ (if truthy (storage_to_str self) then storage_to_str self +:+ " " else "")
  +:+ (if truthy (funcspec_to_str funcspec) then funcspec_to_str funcspec +:+ " " else "").

(** [old] occurs in [s]. *)
Definition occurs (old s : string) : Prop :=
  exists a b, s = a +:+ old +:+ b.

(** The characters of [s] other than [c], in order. *)
Fixpoint remove_char (c : ascii) (s : string) : string :=
  match s with
  | EmptyString => EmptyString
  | String d s' => if Ascii.eqb c d then remove_char c s' else String d (remove_char c s')
  end.

(** Neither a carriage return nor a newline. *)
Definition not_eol (c : ascii) : bool := negb (Ascii.eqb CR c) && negb (Ascii.eqb LF c).

Definition not_LF (c : ascii) : bool := negb (Ascii.eqb c LF).

Definition not_CR (c : ascii) : bool := negb (Ascii.eqb c CR).

(** [str(n)], the decimal text that [%s] gives for a non-negative
    integer. *)
Definition str_int (n : N) : string := NilEmpty.string_of_uint (N.to_uint n).

(** [__gen_lvgl_version_]: ["%s.%s.%s" % (major, minor, patch)]. *)
Definition gen_lvgl_version (v : lvgl_version) : string :=
  str_int (lvgl_version_major v) +:+ "." +:+ str_int (lvgl_version_minor v)
  +:+ "." +:+ str_int (lvgl_version_patch v).

(** A header line that defines a version macro, with its newline. *)
Definition define_line (macro : string) (value : N) : string :=
  "#define " +:+ macro +:+ " " +:+ str_int value +:+ String LF "".

(** ** Templates and document variables *)

Definition CRLF : string := String CR (String LF "").

(** The three line ends of a text file. *)
Definition line_ends : list string := [String LF ""; String CR ""; CRLF].

(** [line.replace('\r','').replace('\n','') + "\r\n"]. *)
Definition normalize_line (line : string) : string := strip_eol line +:+ CRLF.

(** The loop of [__init__] that loads a function template: the lines read
    from the template file are appended with their line ends normalized. *)
Definition load_template (content : string) : string :=
  fold_left (fun template line => template +:+ normalize_line line)
    (readlines content) "".

(** [__replace_variables__]; [date] and [time] are the texts that
    [__gen_date__] and [__gen_time__] return for the clock at the time of
    the call. *)
Definition replace_variables (v : lvgl_version) (date time : string)
  (original contents filename : string) : string :=
  let original := replace "${contents_here}" contents original in
  let original := replace "${lvgl_version}" (gen_lvgl_version v) original in
  let original := replace "${filename}" filename original in
  let original := replace "${date}" date original in
  let original := replace "${time}" time original in
  original.

(** The loop [for func in self.__func_list__] of [__output_safe_lvgl_api__]
    and [gen_safe_lvgl], which appends to the contents the text generated
    for each function and two line ends; an exception from a generator
    leaves the loop. *)
Fixpoint gen_contents (template : string) (σ : gmap loc c_obj) (funcs : list loc)
  (content : string) : option (gmap loc c_obj * result string) :=
  match funcs with
  | [] => Some (σ, Ok content)
  | func :: rest =>
      '(σ', r) ← gen_func template σ func;
      match r with
      | Raise e => Some (σ', Raise e)
      | Ok text => gen_contents template σ' rest (content +:+ (text +:+ CRLF +:+ CRLF))
      end
  end.

(** The text generated for a function object [f] named [n]: the template
    with the declaration of the renamed copy, the call of [f], the return
    statement and the empty comments put in, in this order. *)
Definition wrapper_text (template : string) (f : c_obj) (n : string) : result string :=
  decl ← to_str (set_name f (Some ("safe_" +:+ n))) false;
  call ← gen_func_call f;
  mret (replace "${func_comms}" ""
          (replace "${func_ret}"
             (if neq_str (type (fields f)) "void" then "return ret;" else "")
             (replace "${func_call}" call (replace "${func_decl}" decl template)))).

(** * Properties *)

(** ** Strings *)

Lemma str_app_nil_r (s : string) : s +:+ "" = s.
Proof. induction s as [|c s IH]; cbn; [reflexivity | now rewrite IH]. Qed.

Lemma str_app_assoc (s t u : string) : (s +:+ t) +:+ u = s +:+ (t +:+ u).
Proof. induction s as [|c s IH]; cbn; [reflexivity | now rewrite IH]. Qed.

Lemma str_app_length (s t : string) :
  String.length (s +:+ t) = String.length s + String.length t.
Proof. induction s as [|c s IH]; cbn; [reflexivity | now rewrite IH]. Qed.

Lemma str_repeat_comm (s : string) (n : nat) :
  str_repeat s n +:+ s = s +:+ str_repeat s n.
Proof.
  induction n as [|n IH]; cbn.
  - now rewrite str_app_nil_r.
  - now rewrite str_app_assoc, IH.
Qed.

Lemma for_range_append (s t : string) (n : nat) :
  for_range n (fun acc => acc +:+ s) t = t +:+ str_repeat s n.
Proof.
  induction n as [|n IH]; cbn.
  - now rewrite str_app_nil_r.
  - now rewrite IH, str_app_assoc, str_repeat_comm.
Qed.

Lemma truthy_false (s : string) : truthy s = false <-> s = "".
Proof.
  unfold truthy. destruct (String.eqb_spec s ""); cbn; split; congruence.
Qed.

Lemma neq_str_true (a b : string) : neq_str a b = true <-> a <> b.
Proof.
  unfold neq_str. destruct (String.eqb_spec a b); cbn; split; congruence.
Qed.

(** A text that ends in an asterisk is not the word [void]. *)
Lemma ends_in_star_not_void (s : string) : String.eqb (s +:+ "*") "void" = false.
Proof.
  apply String.eqb_neq.
  destruct s as [|c1 [|c2 [|c3 [|c4 s]]]]; cbn; try discriminate.
  destruct s; cbn; discriminate.
Qed.

(** ** Rendering *)

Lemma type_to_str_eq (self : c_obj_fields) :
  type_to_str self true = type self +:+ pointer_suffix (pointer_layers self).
Proof.
  unfold type_to_str. destruct (pointer_layers self) as [|P] eqn:HP.
  - cbn. now rewrite str_app_nil_r.
  - cbn [Nat.eqb negb pointer_suffix]. now rewrite for_range_append, str_app_assoc.
Qed.

Lemma type_to_str_void (self : c_obj_fields) :
  String.eqb (type_to_str self true) "void"
  = String.eqb (type self) "void" && Nat.eqb (pointer_layers self) 0.
Proof.
  unfold type_to_str. destruct (pointer_layers self) as [|P].
  - cbn. now rewrite andb_true_r.
  - cbn [Nat.eqb negb]. rewrite andb_false_r.
    cbn [for_range]. apply ends_in_star_not_void.
Qed.

Lemma name_to_str_named (self : c_obj_fields) (n : string) :
  name self = Some n ->
  name_to_str self true = Ok (Some (n +:+ str_repeat "[]" (array_layers self))).
Proof.
  intros Hn. unfold name_to_str. rewrite Hn.
  induction (array_layers self) as [|A IH]; cbn [for_range str_repeat].
  - now rewrite str_app_nil_r.
  - rewrite IH. cbn. now rewrite str_app_assoc, str_repeat_comm.
Qed.

Lemma name_to_str_plain (self : c_obj_fields) :
  name_to_str self false = Ok (name self).
Proof. reflexivity. Qed.

(** C4, counterexample: for the declaration [int a] the bare concatenation of
    the rendered type and the rendered name is [inta], not the text [int a]
    with a separating space. *)
Lemma C4_counterexample :
  let self := mk_fields (Some "a") [] [] [] "int" 0 0 in
  (nm ← name_to_str self true; str_add (type_to_str self true) nm)
  <> Ok ("int" +:+ pointer_suffix 0 +:+ " " +:+ "a" +:+ str_repeat "[]" 0).
Proof. cbv. discriminate. Qed.

(** C4: for every object declaration with base type [T], pointer
    depth [P], array depth [A] and name [n], the rendered type followed by
    the rendered name is [T], then a space and [P] asterisks when [P > 0],
    then [n], then [A] copies of [[]], with nothing between the type and the
    name; the space that separates them is the one [to_str] inserts, so that
    rendered type, space, rendered name is [T], pointer part, space, [n],
    array part. *)
Theorem C4_type_name_concat (T n : string) (P A : nat)
  (quals align storage : list string) :
  let self := mk_fields (Some n) quals align storage T A P in
  (nm ← name_to_str self true; str_add (type_to_str self true) nm)
  = Ok (T +:+ pointer_suffix P +:+ n +:+ str_repeat "[]" A)
  /\ (nm ← name_to_str self true; str_add (type_to_str self true +:+ " ") nm)
     = Ok (T +:+ pointer_suffix P +:+ " " +:+ n +:+ str_repeat "[]" A).
Proof.
  intros self.
  rewrite (name_to_str_named self n eq_refl), type_to_str_eq.
  subst self; cbn [mbind result_bind str_add type pointer_layers array_layers].
  split; now rewrite !str_app_assoc.
Qed.

(** C10: an object declaration renders its type as [void] exactly when its
    base type is [void] and its pointer depth is zero; [to_str] then emits
    the specifiers and [void] alone, whatever the name and the array depth
    are, and in every other case it takes the branch that appends a space
    and the rendered name. *)
Theorem C10_void_rendered_alone (self : c_obj_fields) (semicolon with_array : bool) :
  String.eqb (type_to_str self true) "void"
  = String.eqb (type self) "void" && Nat.eqb (pointer_layers self) 0
  /\ obj_to_str self semicolon with_array
     = if String.eqb (type self) "void" && Nat.eqb (pointer_layers self) 0
       then Ok (specifiers self +:+ "void" +:+ semicolon_str semicolon)
       else nm ← name_to_str self with_array;
            tail ← str_add (type_to_str self true +:+ " ") nm;
            Ok (specifiers self +:+ tail +:+ semicolon_str semicolon).
Proof.
  split; [apply type_to_str_void|].
  unfold obj_to_str, neq_str, specifiers. rewrite type_to_str_void.
  destruct (String.eqb (type self) "void" && Nat.eqb (pointer_layers self) 0) eqn:E;
    cbn [negb].
  - apply andb_true_iff in E as [Et Ep].
    apply String.eqb_eq in Et. apply Nat.eqb_eq in Ep.
    rewrite type_to_str_eq, Et, Ep. cbn [pointer_suffix].
    destruct (truthy (quals_to_str self)), (truthy (align_to_str self)),
      (truthy (storage_to_str self)), semicolon;
      cbn; rewrite ?str_app_nil_r, ?str_app_assoc; reflexivity.
  - destruct (name_to_str self with_array) as [nm|e]; [|reflexivity].
    cbn [mbind result_bind].
    destruct (str_add (type_to_str self true +:+ " ") nm) as [tail|e];
      [|reflexivity].
    destruct (truthy (quals_to_str self)), (truthy (align_to_str self)),
      (truthy (storage_to_str self)), semicolon;
      cbn; rewrite ?str_app_nil_r, ?str_app_assoc; reflexivity.
Qed.

(** ** The forwarding call *)

Lemma gen_func_param_body_raise (params : list c_obj) (e : exn) (l : list nat) :
  fold_left (gen_func_param_body params) l (Raise e) = Raise e.
Proof. induction l as [|i l IH]; [reflexivity | exact IH]. Qed.

Lemma fold_body_args_loop (params pre rest : list c_obj) (acc : string) :
  params = pre ++ rest ->
  fold_left (gen_func_param_body params) (seq (length pre) (length rest)) (Ok acc)
  = args_loop rest acc.
Proof.
  revert pre acc. induction rest as [|p rest IH]; intros pre acc Hp.
  - reflexivity.
  - cbn [length seq fold_left].
    assert (Hlook : params !! length pre = Some p)
      by (rewrite Hp; now apply list_lookup_middle).
    assert (Hlen : length params - 1 = length pre + length rest)
      by (rewrite Hp, length_app; cbn [length]; lia).
    assert (Hnext : params = (pre ++ [p]) ++ rest)
      by (now rewrite <- List.app_assoc).
    specialize (IH (pre ++ [p])).
    rewrite length_app in IH. cbn [length] in IH.
    replace (length pre + 1) with (S (length pre)) in IH by lia.
    unfold gen_func_param_body at 2. cbn [mbind result_bind].
    rewrite Hlook, Hlen. fold (kept p).
    destruct rest as [|q rest].
    + replace (Nat.ltb (length pre) (length pre + length [])) with false
        by (symmetry; apply Nat.ltb_ge; cbn [length]; lia).
      cbn [length seq fold_left args_loop].
      destruct (kept p); reflexivity.
    + replace (Nat.ltb (length pre) (length pre + length (q :: rest))) with true
        by (symmetry; apply Nat.ltb_lt; cbn [length]; lia).
      cbn [args_loop]. destruct (kept p).
      * destruct (add_str (name (fields p)) ", ") as [piece|e];
          cbn [mbind mret result_bind result_ret].
        -- now apply IH.
        -- apply gen_func_param_body_raise.
      * now apply IH.
Qed.

Lemma gen_func_param_args_loop (params : list c_obj) :
  gen_func_param params = args_loop params "".
Proof. exact (fold_body_args_loop params [] params "" eq_refl). Qed.

Lemma kept_names_cons (p : c_obj) (ps : list c_obj) :
  kept_names (p :: ps)
  = if kept p then name (fields p) :: kept_names ps else kept_names ps.
Proof. unfold kept_names. cbn [List.filter]. now destruct (kept p). Qed.

Lemma kept_last_nonempty (ps : list c_obj) (p : c_obj) :
  last ps = Some p -> kept p = true -> kept_names ps <> [].
Proof.
  induction ps as [|q ps IH]; [discriminate|].
  intros Hl Hk. rewrite kept_names_cons. destruct ps as [|r ps].
  - cbn in Hl. injection Hl as ->. now rewrite Hk.
  - destruct (kept q); [discriminate|]. now apply IH.
Qed.

Lemma args_loop_join (ps : list c_obj) (acc : string) (args : list string) :
  kept_names ps = map Some args ->
  (args <> [] -> exists p, last ps = Some p /\ kept p = true) ->
  args_loop ps acc = Ok (acc +:+ join ", " args).
Proof.
  revert acc args. induction ps as [|p ps IH]; intros acc args Hn Hl.
  - destruct args; [|discriminate]. cbn. now rewrite str_app_nil_r.
  - rewrite kept_names_cons in Hn. cbn [args_loop]. destruct ps as [|q ps].
    + destruct (kept p).
      * destruct args as [|n [|? ?]]; try discriminate.
        injection Hn as ->. reflexivity.
      * destruct args; [|discriminate]. cbn. now rewrite str_app_nil_r.
    + destruct (kept p).
      * destruct args as [|n args]; [discriminate|].
        injection Hn as Hp Hn. rewrite Hp. cbn [add_str mbind result_bind].
        destruct (Hl ltac:(discriminate)) as (l & Hlast & Hk).
        assert (Hne : args <> []).
        { intros ->. now apply (kept_last_nonempty (q :: ps) l Hlast Hk). }
        rewrite (IH _ args Hn) by (intros _; now exists l).
        destruct args as [|m args]; [contradiction|].
        unfold join. cbn [String.concat]. now rewrite !str_app_assoc.
      * now apply IH.
Qed.

(** C5, counterexample: the function collected from [void f(int a, void)] has
    one kept parameter, [a]; its call is rendered [f(a, );], which is not
    the name, the kept names joined with a comma and a space, and the
    closing text.  The function collected from [void h(int)] keeps a
    parameter that has no name, and rendering its call raises. *)
Lemma C5_counterexample :
  (exists (self : c_obj_fields) (fs : list string) (rt : string) (ps : list c_obj),
     c_decl_to_c_obj decl_f_int_void = Ok (c_func_obj_decl self fs rt ps)
     /\ kept_names ps = [Some "a"]
     /\ gen_func_call (c_func_obj_decl self fs rt ps) = Ok "f(a, );"
     /\ gen_func_call (c_func_obj_decl self fs rt ps)
        <> Ok ("f" +:+ "(" +:+ join ", " ["a"] +:+ ");"))
  /\ (exists (h : c_obj) (e : exn),
        c_decl_to_c_obj decl_h_unnamed = Ok h /\ gen_func_call h = Raise e).
Proof.
  split.
  - eexists _, _, _, _. split; [reflexivity|].
    split; [reflexivity|]. split; [reflexivity|]. cbv. discriminate.
  - eexists _, _. split; reflexivity.
Qed.

(** C5: for a function named [f] whose kept parameters, those
    whose rendered type is not [void], carry the names [args], and whose
    last parameter is kept whenever any parameter is, [gen_func_call] drops
    every parameter rendered [void] and joins the names [args] with a comma
    and a space: the call is [f(args);], preceded by the rendered return
    type and [ret =] when that type is not [void]. *)
Theorem C5_call_arguments (self : c_obj_fields) (fs : list string) (rt : string)
  (ps : list c_obj) (f : string) (args : list string) :
  name self = Some f ->
  kept_names ps = map Some args ->
  (args <> [] -> exists p, last ps = Some p /\ kept p = true) ->
  gen_func_call (c_func_obj_decl self fs rt ps)
  = Ok ((if String.eqb (type_to_str self true) "void" then ""
         else type_to_str self true +:+ " ret = ")
        +:+ f +:+ "(" +:+ join ", " args +:+ ");").
Proof.
  intros Hf Hn Hl. unfold gen_func_call.
  rewrite gen_func_param_args_loop, (args_loop_join ps "" args Hn Hl), Hf.
  cbn [mbind result_bind str_add add_str mret result_ret]. unfold neq_str.
  destruct (String.eqb (type_to_str self true) "void"); cbn [negb];
    cbn; now rewrite ?str_app_assoc.
Qed.

Lemma C5_call_arguments_witness :
  gen_func_call
    (c_func_obj_decl (mk_fields (Some "g") [] [] [] "int" 0 1) [] "int"
       [c_obj_decl (mk_fields (Some "a") [] [] [] "int" 0 0);
        c_obj_decl (mk_fields (Some "b") [] [] [] "char" 0 1)])
  = Ok "int * ret = g(a, b);".
Proof.
  apply (C5_call_arguments (mk_fields (Some "g") [] [] [] "int" 0 1) [] "int"
           [c_obj_decl (mk_fields (Some "a") [] [] [] "int" 0 0);
            c_obj_decl (mk_fields (Some "b") [] [] [] "char" 0 1)]
           "g" ["a"; "b"]).
  - reflexivity.
  - reflexivity.
  - intros _. eexists. split; reflexivity.
Defined.

(** The function collected from [void f(void)] is called as [f();]. *)
Example call_f_void :
  (o ← c_decl_to_c_obj
         (Decl (Some "f") [] [] [] []
            (FuncDecl (Some [Typename None [] (TypeDecl (IdentifierType ["void"]))])
               (TypeDecl (IdentifierType ["void"]))));
   gen_func_call o) = Ok "f();".
Proof. reflexivity. Qed.

(** ** The emitter and the store *)

Lemma deepcopy_spec (σ : gmap loc c_obj) (x : loc) (o : c_obj) :
  σ !! x = Some o ->
  exists y, deepcopy σ x = Some (<[y := o]> σ, y) /\ σ !! y = None.
Proof.
  intros Hx. exists (fresh (dom σ)). unfold deepcopy. rewrite Hx. cbn.
  split; [reflexivity|]. apply not_elem_of_dom, is_fresh.
Qed.

(** What [gen_func] does to the store: for a function object [f] with its
    name set, a copy is allocated at an unused identity [y], the copy is
    renamed, and the text is rendered from the copy and from [f] itself. *)
Lemma gen_func_named (template : string) (σ : gmap loc c_obj) (function : loc)
  (f : c_obj) (n : string) :
  σ !! function = Some f ->
  name (fields f) = Some n ->
  exists y, σ !! y = None /\
    gen_func template σ function
    = Some (<[y := set_name f (Some ("safe_" +:+ n))]> σ,
            decl ← to_str (set_name f (Some ("safe_" +:+ n))) false;
            call ← gen_func_call f;
            mret (replace "${func_comms}" ""
                    (replace "${func_ret}"
                       (if neq_str (type (fields f)) "void" then "return ret;" else "")
                       (replace "${func_call}" call
                          (replace "${func_decl}" decl template))))).
Proof.
  intros Hf Hn. destruct (deepcopy_spec σ function f Hf) as (y & Hcopy & Hy).
  exists y. split; [exact Hy|].
  assert (Hne : y <> function) by congruence.
  assert (H1 : <[y := f]> σ !! function = Some f)
    by (rewrite lookup_insert_ne; [exact Hf | exact Hne]).
  assert (H2 : <[y := f]> σ !! y = Some f) by apply lookup_insert_eq.
  set (s := set_name f (Some ("safe_" +:+ n))).
  assert (H3 : <[y := s]> (<[y := f]> σ) !! y = Some s) by apply lookup_insert_eq.
  assert (H4 : <[y := s]> (<[y := f]> σ) !! function = Some f)
    by (rewrite lookup_insert_ne; [exact H1 | exact Hne]).
  unfold gen_func, setattr_name. rewrite Hf. cbn [mbind option_bind].
  rewrite Hn. cbn [str_add]. rewrite Hcopy. cbn [mbind option_bind].
  rewrite H1. cbn [mbind option_bind]. rewrite Hn. cbn [str_add].
  rewrite H2. cbn [mbind option_bind]. fold s. rewrite H3. cbn [mbind option_bind].
  rewrite H4. cbn [mbind option_bind]. rewrite insert_insert_eq.
  do 2 f_equal.
  destruct (to_str s false) as [decl|e]; [|reflexivity].
  cbn [mbind result_bind]. destruct (gen_func_call f) as [call|e]; [|reflexivity].
  cbn [mbind result_bind]. now destruct (neq_str (type (fields f)) "void").
Qed.

Lemma gen_func_unnamed (template : string) (σ : gmap loc c_obj) (function : loc)
  (f : c_obj) :
  σ !! function = Some f ->
  name (fields f) = None ->
  exists e, gen_func template σ function = Some (σ, Raise e).
Proof.
  intros Hf Hn. unfold gen_func. rewrite Hf. cbn [mbind option_bind].
  rewrite Hn. cbn. eauto.
Qed.

(** C2: for the collected function [void *g(void)] the definition generated
    from a template with the three tokens declares [void * ret] in the call
    line and replaces the return token by the empty text: the test reads
    the base type, which is [void], and not the rendered type [void *]. *)
Theorem C2_void_pointer_return_dropped :
  c_decl_to_c_obj decl_g_void_ptr = Ok func_g_void_ptr
  /\ type_to_str (fields func_g_void_ptr) true = "void *"
  /\ exists σ',
       gen_func_def "${func_decl} { ${func_call} ${func_ret} }"
         {[ 1%positive := func_g_void_ptr ]} 1%positive
       = Some (σ', Ok "void * safe_g(void) { void * ret = g();  }").
Proof.
  split; [reflexivity|]. split; [reflexivity|].
  destruct (gen_func_named "${func_decl} { ${func_call} ${func_ret} }"
              {[ 1%positive := func_g_void_ptr ]} 1%positive func_g_void_ptr "g")
    as (y & _ & Heq); [apply lookup_singleton_eq | reflexivity |].
  eexists. unfold gen_func_def. rewrite Heq. reflexivity.
Qed.

(** C9: generating the definition or the declaration of a wrapper for the
    function object [f] stored at [function] leaves every object of the
    store, and [f] with its name in particular, as it was; when [f] is named
    [n], the renamed value, with name [safe_n], is a new object at an
    identity that was unused before. *)
Theorem C9_original_unchanged (template_func_def template_func_decl : string)
  (σ : gmap loc c_obj) (function : loc) (f : c_obj) :
  σ !! function = Some f ->
  forall gen, gen = gen_func_def template_func_def
              \/ gen = gen_func_decl template_func_decl ->
  exists σ' r,
    gen σ function = Some (σ', r)
    /\ σ' !! function = Some f
    /\ (forall l o, σ !! l = Some o -> σ' !! l = Some o)
    /\ (forall n, name (fields f) = Some n ->
        exists copy, σ !! copy = None
          /\ σ' !! copy = Some (set_name f (Some ("safe_" +:+ n)))).
Proof.
  intros Hf gen Hgen.
  assert (Hg : exists template, gen = gen_func template)
    by (destruct Hgen as [-> | ->]; eexists; reflexivity).
  destruct Hg as (template & ->).
  destruct (name (fields f)) as [n|] eqn:Hn.
  - destruct (gen_func_named template σ function f n Hf Hn) as (y & Hy & Heq).
    eexists _, _. split; [exact Heq|].
    assert (Hframe : forall l o, σ !! l = Some o ->
              <[y := set_name f (Some ("safe_" +:+ n))]> σ !! l = Some o).
    { intros l o Hl. rewrite lookup_insert_ne; [exact Hl | congruence]. }
    split; [now apply Hframe|]. split; [exact Hframe|].
    intros n' [= <-]. exists y. split; [exact Hy|]. apply lookup_insert_eq.
  - destruct (gen_func_unnamed template σ function f Hf Hn) as (e & Heq).
    eexists _, _. split; [exact Heq|]. split; [exact Hf|].
    split; [auto|]. intros n' [=].
Qed.

Lemma C9_original_unchanged_witness :
  exists σ' r,
    gen_func_def "${func_decl} { ${func_call} ${func_ret} }"
      {[ 1%positive := func_g_void_ptr ]} 1%positive = Some (σ', r)
    /\ σ' !! 1%positive = Some func_g_void_ptr
    /\ (forall l o, ({[ 1%positive := func_g_void_ptr ]} : gmap loc c_obj) !! l = Some o ->
        σ' !! l = Some o)
    /\ (forall n, name (fields func_g_void_ptr) = Some n ->
        exists copy,
          ({[ 1%positive := func_g_void_ptr ]} : gmap loc c_obj) !! copy = None
          /\ σ' !! copy = Some (set_name func_g_void_ptr (Some ("safe_" +:+ n)))).
Proof.
  apply (C9_original_unchanged "${func_decl} { ${func_call} ${func_ret} }" ""
           {[ 1%positive := func_g_void_ptr ]} 1%positive func_g_void_ptr).
  - vm_compute. reflexivity.
  - left. reflexivity.
Defined.

(** ** The type resolver on declarators *)

Lemma strip_ArrayDecl_array_of (A : nat) (t : node) (k : nat) :
  strip_ArrayDecl (array_of A t) k = strip_ArrayDecl t (k + A).
Proof.
  revert k. induction A as [|A IH]; intros k; cbn.
  - now rewrite Nat.add_0_r.
  - rewrite IH. f_equal. lia.
Qed.

Lemma strip_PtrDecl_pointer_to (P : nat) (t : node) (k : nat) :
  strip_PtrDecl (pointer_to P t) k = strip_PtrDecl t (k + P).
Proof.
  revert k. induction P as [|P IH]; intros k; cbn.
  - now rewrite Nat.add_0_r.
  - rewrite IH. f_equal. lia.
Qed.

Lemma strip_ArrayDecl_pointer_to (P : nat) (x : node) (k : nat) :
  strip_ArrayDecl (pointer_to P (TypeDecl x)) k = (pointer_to P (TypeDecl x), k).
Proof. destruct P; reflexivity. Qed.

(** The resolver on a declarator with [A] array levels outside [P] pointer
    levels around a type node: the depths are counted, and the base type is
    decided by the kind of the terminal node alone. *)
Lemma get_nesting_type_declarator (A P : nat) (x : node) :
  get_nesting_type (array_of A (pointer_to P (TypeDecl x)))
  = match x with
    | Struct tag => t ← str_add "struct " tag; mret (t, A, P)
    | IdentifierType (first :: _) => Ok (first, A, P)
    | IdentifierType [] => Raise (IndexError "list index out of range")
    | _ => Raise (Exception "Unknown type in TypeDecl: ")
    end.
Proof.
  unfold get_nesting_type.
  rewrite strip_ArrayDecl_array_of, strip_ArrayDecl_pointer_to,
    strip_PtrDecl_pointer_to.
  cbn. destruct x; try reflexivity.
Qed.

(** C3: on every declarator whose terminal type node names an enum,
    whatever its array and pointer depths and its tag, the resolver raises
    the plain exception for an unknown type; the only place that builds the
    text [enum] followed by the tag is the branch of [c_decl_to_c_obj] for a
    declaration whose type is the enum node itself. *)
Theorem C3_enum_declarator_rejected (A P : nat) (tag : option string) :
  get_nesting_type (array_of A (pointer_to P (TypeDecl (Enum tag))))
  = Raise (Exception "Unknown type in TypeDecl: ")
  /\ c_decl_to_c_obj
       (Decl (Some "x") [] [] [] [] (TypeDecl (Enum (Some "E"))))
     = Raise (Exception "Unknown type in TypeDecl: ")
  /\ c_decl_to_c_obj (Decl None [] [] [] [] (Enum (Some "E")))
     = Ok (c_obj_decl (mk_fields None [] [] [] "enum E" 0 0)).
Proof.
  split; [apply get_nesting_type_declarator|]. split; reflexivity.
Qed.

(** A declaration that carries an alignment specifier fails conversion with
    a plain exception. *)
Lemma c_decl_to_c_obj_align (nm : option string) (quals storage funcspec : list string)
  (a : node) (al : list node) (ty : node) :
  c_decl_to_c_obj (Decl nm quals (a :: al) storage funcspec ty)
  = Raise (Exception "Align is not supported temporarily.").
Proof. reflexivity. Qed.

(** For comparison, a struct at the end of the same declarators resolves. *)
Lemma get_nesting_type_struct (A P : nat) (tag : string) :
  get_nesting_type (array_of A (pointer_to P (TypeDecl (Struct (Some tag)))))
  = Ok ("struct " +:+ tag, A, P).
Proof. now rewrite get_nesting_type_declarator. Qed.

(** ** The collector *)

(** What [__add_lvgl_func__] does with a node that passed the blacklist and
    the duplicate test, by the outcome of the conversion. *)
Lemma add_lvgl_func_convert (self : generator) (func_node : node)
  (func_name : string) :
  node_name func_node = Ok (Some func_name) ->
  in_blacklist (blacklist_func_patterns self) (Some func_name) = Ok false ->
  already_added (func_list self) (Some func_name) = false ->
  add_lvgl_func self func_node
  = match c_decl_to_c_obj func_node with
    | Ok func => (append_func self func, Ok true)
    | Raise e =>
        if is_NotImplementedError e
        then (log self WARNING
                ("Parse function error: " +:+ func_name +:+ " error: " +:+ exn_str e),
              Ok false)
        else (self, Raise e)
    end.
Proof.
  intros Hn Hb Ha. unfold add_lvgl_func. rewrite Hn, Hb, Ha.
  destruct (c_decl_to_c_obj func_node) as [func|e]; [reflexivity|].
  destruct (is_NotImplementedError e); [|reflexivity].
  cbn [str_add]. now rewrite str_app_assoc.
Qed.

(** C1: a function returning a union fails conversion with a plain
    exception, which [except NotImplementedError] does not catch: it leaves
    [__parse_header__], no warning is logged, and the function that follows
    in the header is never collected.  The variadic function in the same
    position is discarded with a warning and collection goes on. *)
Theorem C1_unsupported_type_escapes :
  c_decl_to_c_obj decl_u_union = Raise (Exception "Unknown type in TypeDecl: ")
  /\ parse_header new_generator "lvgl.h" [decl_u_union; decl_f_void]
     = (log new_generator INFO "Parsing lvgl.h ...",
        Raise (Exception "Unknown type in TypeDecl: "))
  /\ (exists f,
        c_decl_to_c_obj decl_f_void = Ok f
        /\ parse_header new_generator "lvgl.h" [decl_v_variadic; decl_f_void]
           = (mk_generator default_block_strategy [f]
                [(INFO, "Parsing lvgl.h ...");
                 (WARNING, "Parse function error: v error: EllipsisParam is not supported temporarily.")],
              Ok 1)).
Proof.
  split; [reflexivity|]. split; [reflexivity|].
  eexists. split; reflexivity.
Qed.

Lemma option_string_eqb_eq (a b : option string) :
  option_string_eqb a b = true <-> a = b.
Proof.
  destruct a as [x|], b as [y|]; cbn; try (split; congruence).
  rewrite String.eqb_eq. split; congruence.
Qed.

Lemma already_added_false (funcs : list c_obj) (nm : option string) :
  already_added funcs nm = false
  <-> ~ In nm (map (fun f => name (fields f)) funcs).
Proof.
  unfold already_added. induction funcs as [|f funcs IH]; cbn.
  - tauto.
  - rewrite orb_false_iff, IH. split.
    + intros [Hf Hr] [Heq | Hin]; [|now apply Hr].
      symmetry in Heq. apply option_string_eqb_eq in Heq. congruence.
    + intros Hn. split; [|tauto].
      destruct (option_string_eqb nm (name (fields f))) eqn:E; [|reflexivity].
      apply option_string_eqb_eq in E. exfalso. apply Hn. now left.
Qed.

Ltac break_result H :=
  repeat (cbn [mbind mret result_bind result_ret] in H;
          match type of H with
          | context [@mbind result _ _ _ _ ?x] => destruct x eqn:?
          | context [match ?x with _ => _ end] => destruct x eqn:?
          end;
          cbn [mbind mret result_bind result_ret] in H; try discriminate H).

(** A converted node keeps its name. *)
Lemma c_decl_to_c_obj_name (n : node) (o : c_obj) (nm : option string) :
  c_decl_to_c_obj n = Ok o -> node_name n = Ok nm -> name (fields o) = nm.
Proof.
  intros Hc Hn. destruct n; cbn in Hn; try discriminate Hn;
    injection Hn as ->; cbn in Hc; try discriminate Hc; break_result Hc;
    injection Hc as <-; reflexivity.
Qed.

(** One call of [__add_lvgl_func__] leaves the patterns alone and either
    leaves the list alone or appends the whole conversion of the node, whose
    name is then new to the list. *)
Lemma add_lvgl_func_step (self : generator) (n : node) :
  blacklist_func_patterns (fst (add_lvgl_func self n)) = blacklist_func_patterns self
  /\ (func_list (fst (add_lvgl_func self n)) = func_list self
      \/ exists f, c_decl_to_c_obj n = Ok f
           /\ ~ In (name (fields f)) (collected_names self)
           /\ func_list (fst (add_lvgl_func self n)) = func_list self ++ [f]).
Proof.
  unfold add_lvgl_func.
  destruct (node_name n) as [nm|e] eqn:Hn; [|now split; [|left]].
  destruct (in_blacklist (blacklist_func_patterns self) nm) as [[|]|e];
    [| |now split; [|left]].
  - now split; [|left].
  - destruct (already_added (func_list self) nm) eqn:Ha; [now split; [|left]|].
    destruct (c_decl_to_c_obj n) as [f|e] eqn:Hc.
    + split; [reflexivity|]. right. exists f. split; [reflexivity|].
      split; [|reflexivity].
      rewrite (c_decl_to_c_obj_name n f nm Hc Hn).
      now apply already_added_false.
    + destruct (is_NotImplementedError e); [|now split; [|left]].
      destruct (str_add "Parse function error: " nm); now split; [|left].
Qed.

Lemma parse_header_loop_cons (self : generator) (n : node) (rest : list node) :
  parse_header_loop self (n :: rest)
  = match snd (visit self n) with
    | Ok _ => parse_header_loop (fst (visit self n)) rest
    | Raise e => (fst (visit self n), Raise e)
    end.
Proof.
  unfold visit. cbn [parse_header_loop].
  destruct n; cbn [function_node]; try reflexivity.
  - destruct n; cbn [function_node];
      try reflexivity; now destruct (add_lvgl_func _ _) as [? [?|?]].
  - now destruct (add_lvgl_func _ _) as [? [?|?]].
Qed.

Lemma visit_step (self : generator) (n : node) :
  func_list (fst (visit self n)) = func_list self
  \/ exists d f, function_node n = Some d /\ c_decl_to_c_obj d = Ok f
       /\ ~ In (name (fields f)) (collected_names self)
       /\ func_list (fst (visit self n)) = func_list self ++ [f].
Proof.
  unfold visit. destruct (function_node n) as [d|]; [|now left].
  destruct (add_lvgl_func_step self d) as [_ [H | (f & Hc & Hn & Hl)]];
    [now left | right]. now exists d, f.
Qed.

Lemma converted_from_cons (n : node) (ext : list node) (f : c_obj) :
  converted_from ext f -> converted_from (n :: ext) f.
Proof. intros (m & d & Hin & H). exists m, d. split; [now right | exact H]. Qed.

(** The invariant of the loop of [__parse_header__]. *)
Lemma parse_header_loop_invariant (ext : list node) (self : generator) :
  NoDup (collected_names self) ->
  NoDup (collected_names (fst (parse_header_loop self ext)))
  /\ exists added,
       func_list (fst (parse_header_loop self ext)) = func_list self ++ added
       /\ Forall (converted_from ext) added.
Proof.
  revert self. induction ext as [|n ext IH]; intros self Hnd.
  - cbn. split; [exact Hnd|]. exists []. now rewrite List.app_nil_r.
  - rewrite parse_header_loop_cons.
    assert (Hstep : NoDup (collected_names (fst (visit self n)))
              /\ exists one, func_list (fst (visit self n)) = func_list self ++ one
                   /\ Forall (converted_from (n :: ext)) one).
    { destruct (visit_step self n) as [H | (d & f & Hfn & Hc & Hn & Hl)].
      - split; [unfold collected_names; now rewrite H|].
        exists []. now rewrite List.app_nil_r.
      - split.
        + unfold collected_names in *. rewrite Hl, map_app. cbn [map].
          apply NoDup_ListNoDup. apply NoDup_ListNoDup in Hnd.
          apply List.NoDup_app; [exact Hnd | | ].
          * constructor; [intros [] | constructor].
          * intros x Hx [<- | []]. now apply Hn.
        + exists [f]. split; [exact Hl|]. constructor; [|constructor].
          exists n, d. split; [now left | now split]. }
    destruct Hstep as (Hnd1 & one & Hone & Hfrom1).
    destruct (snd (visit self n)) as [b|e].
    + destruct (IH _ Hnd1) as (Hnd2 & added & Hadd & Hfrom2).
      split; [exact Hnd2|]. exists (one ++ added).
      split; [now rewrite Hadd, Hone, List.app_assoc|].
      apply Forall_app. split; [exact Hfrom1|].
      eapply List.Forall_impl; [|exact Hfrom2]. apply converted_from_cons.
    + cbn [fst]. split; [exact Hnd1|]. now exists one.
Qed.

(** Entries collected from the first part of the translation unit stay in
    place whatever follows. *)
Lemma parse_header_loop_app (pre post : list node) (self : generator) :
  exists later,
    func_list (fst (parse_header_loop self (pre ++ post)))
    = func_list (fst (parse_header_loop self pre)) ++ later.
Proof.
  revert self. induction pre as [|n pre IH]; intros self.
  - cbn [app parse_header_loop fst].
    revert self. induction post as [|m post IHp]; intros self.
    + exists []. now rewrite List.app_nil_r.
    + rewrite parse_header_loop_cons.
      assert (Hone : exists one, func_list (fst (visit self m)) = func_list self ++ one).
      { destruct (visit_step self m) as [H | (d & f & _ & _ & _ & Hl)].
        - exists []. now rewrite List.app_nil_r.
        - now exists [f]. }
      destruct Hone as (one & Hone).
      destruct (snd (visit self m)).
      * destruct (IHp (fst (visit self m))) as (later & Hl).
        exists (one ++ later). now rewrite Hl, Hone, List.app_assoc.
      * now exists one.
  - cbn [app]. rewrite !parse_header_loop_cons.
    destruct (snd (visit self n)).
    + apply IH.
    + exists []. now rewrite List.app_nil_r.
Qed.

Lemma parse_header_fst (self : generator) (header_path : string) (ext : list node) :
  fst (parse_header self header_path ext)
  = fst (parse_header_loop (log self INFO ("Parsing " +:+ header_path +:+ " ...")) ext).
Proof.
  unfold parse_header. destruct (parse_header_loop _ ext) as [self' [u|e]]; reflexivity.
Qed.

(** A declaration whose name is already collected is discarded and the list
    stays as it is. *)
Lemma add_lvgl_func_duplicate (self : generator) (func_node : node)
  (func_name : string) :
  node_name func_node = Ok (Some func_name) ->
  in_blacklist (blacklist_func_patterns self) (Some func_name) = Ok false ->
  In (Some func_name) (collected_names self) ->
  add_lvgl_func self func_node = (self, Ok false).
Proof.
  intros Hn Hb Hin. unfold add_lvgl_func. rewrite Hn, Hb.
  destruct (already_added (func_list self) (Some func_name)) eqn:Ha; [reflexivity|].
  apply already_added_false in Ha. contradiction.
Qed.

(** Of two declarations of [lv_foo], the first returning [int] and the
    second [void], only the first is collected. *)
Example first_seen_wins :
  exists f,
    c_decl_to_c_obj decl_lv_foo_int = Ok f
    /\ func_list (fst (parse_header new_generator "lvgl.h"
                         [decl_lv_foo_int; decl_lv_foo_void])) = [f]
    /\ type (fields f) = "int".
Proof. eexists. split; [reflexivity|]. split; reflexivity. Qed.

Lemma NoDup_names_eq (l : list c_obj) (f g : c_obj) :
  NoDup (map (fun f => name (fields f)) l) ->
  In f l -> In g l -> name (fields g) = name (fields f) -> g = f.
Proof.
  intros Hnd%NoDup_ListNoDup. revert f g.
  induction l as [|a l IH]; intros f g; [intros []|].
  cbn [map] in Hnd. apply List.NoDup_cons_iff in Hnd as [Ha Hnd].
  intros [Hf | Hf] [Hg | Hg] Hn.
  - congruence.
  - exfalso. apply Ha. subst a. rewrite <- Hn.
    now apply (in_map (fun f => name (fields f))).
  - exfalso. apply Ha. subst a. rewrite Hn.
    now apply (in_map (fun f => name (fields f))).
  - now apply IH.
Qed.

Lemma parse_header_snd (self : generator) (header_path : string) (ext : list node)
  (count : nat) :
  snd (parse_header self header_path ext) = Ok count ->
  snd (parse_header_loop (log self INFO ("Parsing " +:+ header_path +:+ " ...")) ext)
  = Ok tt.
Proof.
  unfold parse_header.
  destruct (parse_header_loop _ ext) as [self' [[]|e]]; [reflexivity | discriminate].
Qed.

(** The loop never touches the patterns. *)
Lemma parse_header_loop_patterns (ext : list node) (self : generator) :
  blacklist_func_patterns (fst (parse_header_loop self ext))
  = blacklist_func_patterns self.
Proof.
  revert self. induction ext as [|n ext IH]; intros self; [reflexivity|].
  rewrite parse_header_loop_cons.
  assert (Hpat : blacklist_func_patterns (fst (visit self n))
                 = blacklist_func_patterns self).
  { unfold visit. destruct (function_node n) as [d|]; [|reflexivity].
    apply add_lvgl_func_step. }
  destruct (snd (visit self n)); [now rewrite IH | exact Hpat].
Qed.

(** When the first part of the translation unit was visited without an
    exception, the loop goes on with the rest from the state reached. *)
Lemma parse_header_loop_continue (pre post : list node) (self : generator) :
  snd (parse_header_loop self pre) = Ok tt ->
  parse_header_loop self (pre ++ post)
  = parse_header_loop (fst (parse_header_loop self pre)) post.
Proof.
  revert self. induction pre as [|n pre IH]; intros self Hok; [reflexivity|].
  cbn [app]. rewrite parse_header_loop_cons in Hok. rewrite !parse_header_loop_cons.
  destruct (snd (visit self n)); [now apply IH | discriminate Hok].
Qed.

(** C6: starting from a list of functions with distinct names, as the empty
    list of a new generator is, the names in the list after
    [__parse_header__] are pairwise distinct; what was collected from the
    first part [pre] of the translation unit is still there, in place, after
    the rest [post] was visited, and an entry collected from [pre] is the
    only entry of its name at the end, so that a later declaration of the
    same name is discarded; every entry added is the complete conversion
    of a function node of the translation unit, so that a function whose
    conversion fails is not in the list at all; and a function node that is
    reached when no entry has its name, is not blacklisted and converts, is
    collected: its conversion is put right after what was collected before
    it, and it is the only entry of that name at the end. *)
Theorem C6_collected_names_distinct (self : generator) (header_path : string)
  (pre post : list node) :
  NoDup (collected_names self) ->
  let collected nodes := func_list (fst (parse_header self header_path nodes)) in
  NoDup (map (fun f => name (fields f)) (collected (pre ++ post)))
  /\ (exists later, collected (pre ++ post) = collected pre ++ later)
  /\ (forall f g, In f (collected pre) -> In g (collected (pre ++ post)) ->
       name (fields g) = name (fields f) -> g = f)
  /\ (exists added,
        collected (pre ++ post) = func_list self ++ added
        /\ Forall (converted_from (pre ++ post)) added)
  /\ (forall n rest d func_name f count,
        post = n :: rest ->
        function_node n = Some d ->
        node_name d = Ok (Some func_name) ->
        in_blacklist (blacklist_func_patterns self) (Some func_name) = Ok false ->
        snd (parse_header self header_path pre) = Ok count ->
        ~ In (Some func_name) (map (fun f => name (fields f)) (collected pre)) ->
        c_decl_to_c_obj d = Ok f ->
        (exists later, collected (pre ++ post) = collected pre ++ f :: later)
        /\ (forall g, In g (collected (pre ++ post)) ->
              name (fields g) = Some func_name -> g = f)).
Proof.
  intros Hnd collected. subst collected. cbn beta.
  rewrite !parse_header_fst.
  set (self0 := log self INFO ("Parsing " +:+ header_path +:+ " ...")).
  destruct (parse_header_loop_invariant (pre ++ post) self0 Hnd) as (H1 & H2).
  destruct (parse_header_loop_app pre post self0) as (later & Hlater).
  split; [exact H1|]. split; [now exists later|].
  split; [|split; [exact H2|]].
  - intros f g Hf Hg Hn.
    apply (NoDup_names_eq (func_list (fst (parse_header_loop self0 (pre ++ post)))));
      [exact H1 | | exact Hg | exact Hn].
    rewrite Hlater. apply in_or_app. now left.
  - intros n rest d func_name f count -> Hfn Hname Hb Hok Hnew Hc.
    apply parse_header_snd in Hok. fold self0 in Hok.
    assert (Hadd : exists later',
              func_list (fst (parse_header_loop self0 (pre ++ n :: rest)))
              = func_list (fst (parse_header_loop self0 pre)) ++ f :: later').
    { rewrite (parse_header_loop_continue pre (n :: rest) self0 Hok).
      set (self1 := fst (parse_header_loop self0 pre)) in *.
      rewrite parse_header_loop_cons. unfold visit. rewrite Hfn.
      assert (Hvisit : add_lvgl_func self1 d = (append_func self1 f, Ok true)).
      { rewrite (add_lvgl_func_convert self1 d func_name Hname).
        - now rewrite Hc.
        - unfold self1. now rewrite parse_header_loop_patterns.
        - now apply already_added_false. }
      rewrite Hvisit. cbn [fst snd].
      destruct (parse_header_loop_app [] rest (append_func self1 f)) as (later' & Hl).
      cbn [app parse_header_loop fst append_func func_list] in Hl.
      exists later'. now rewrite Hl, <- List.app_assoc. }
    split; [exact Hadd|]. destruct Hadd as (later' & Hadd).
    intros g Hg Hgn.
    apply (NoDup_names_eq (func_list (fst (parse_header_loop self0 (pre ++ n :: rest)))));
      [exact H1 | | exact Hg | ].
    + rewrite Hadd. apply in_or_app. right. now left.
    + rewrite Hgn. symmetry. exact (c_decl_to_c_obj_name d f (Some func_name) Hc Hname).
Qed.

(** Of [int lv_foo(void);] followed by [void lv_foo(void);] the first is
    collected, and every entry named [lv_foo] is that one, which returns
    [int]. *)
Lemma C6_collected_names_distinct_witness :
  let collected := func_list (fst (parse_header new_generator "lvgl.h"
                                     [decl_lv_foo_int; decl_lv_foo_void])) in
  let f := c_func_obj_decl (mk_fields (Some "lv_foo") [] [] [] "int" 0 0) [] "int"
             [c_obj_decl (mk_fields None [] [] [] "void" 0 0)] in
  NoDup (map (fun f => name (fields f)) collected)
  /\ (exists later, collected = f :: later)
  /\ (forall g, In g collected -> name (fields g) = Some "lv_foo" -> g = f).
Proof.
  intros collected f.
  assert (Hnd : NoDup (collected_names new_generator)) by (cbn; constructor).
  destruct (C6_collected_names_distinct new_generator "lvgl.h"
              [] [decl_lv_foo_int; decl_lv_foo_void] Hnd)
    as (Hdistinct & _ & _ & _ & Hfirst).
  destruct (Hfirst decl_lv_foo_int [decl_lv_foo_void] decl_lv_foo_int "lv_foo" f 0)
    as (Hin & Honly).
  - reflexivity.
  - reflexivity.
  - reflexivity.
  - reflexivity.
  - reflexivity.
  - cbn. tauto.
  - reflexivity.
  - split; [exact Hdistinct|]. split; [exact Hin | exact Honly].
Defined.

(** ** Patterns: the matcher finds exactly the prefixes the pattern matches *)

Lemma str_app_eq_nil (s t : string) : s +:+ t = "" -> s = "" /\ t = "".
Proof. destruct s; cbn; [tauto | discriminate]. Qed.

Lemma matches_chr_inv (b : bool) (c : ascii) (w : string) :
  re.matches b (re.Chr c) w -> w = String c "".
Proof. now inversion 1. Qed.

Lemma matches_rng_inv (b : bool) (lo hi : ascii) (w : string) :
  re.matches b (re.Rng lo hi) w ->
  exists c, w = String c "" /\ re.in_range lo hi c = true.
Proof. inversion 1; subst; eauto. Qed.

Lemma matches_seq_inv (b : bool) (r1 r2 : re.Pattern) (w : string) :
  re.matches b (re.Seq r1 r2) w ->
  exists w1 w2, w = w1 +:+ w2 /\ re.matches b r1 w1
                /\ re.matches (b && re.is_empty w1) r2 w2.
Proof. inversion 1; subst; eauto. Qed.

Lemma matches_alt_inv (b : bool) (r1 r2 : re.Pattern) (w : string) :
  re.matches b (re.Alt r1 r2) w -> re.matches b r1 w \/ re.matches b r2 w.
Proof. inversion 1; subst; auto. Qed.

Lemma matches_star_inv (b : bool) (r : re.Pattern) (w : string) :
  re.matches b (re.Star r) w ->
  w = "" \/ exists c w1 w2, w = String c w1 +:+ w2
                /\ re.matches b r (String c w1) /\ re.matches false (re.Star r) w2.
Proof. inversion 1; subst; [now left | right; eauto 6]. Qed.

Lemma nullable_correct (b : bool) (r : re.Pattern) :
  re.nullable b r = true <-> re.matches b r "".
Proof.
  revert b. induction r as [| | |c|lo hi|r1 IH1 r2 IH2|r1 IH1 r2 IH2|r IH];
    intros b; cbn [re.nullable].
  - split; [discriminate | inversion 1].
  - split; [constructor | reflexivity].
  - split; [intros ->; constructor | now inversion 1].
  - split; [discriminate | intros H%matches_chr_inv; discriminate].
  - split; [discriminate | intros (c & H & _)%matches_rng_inv; discriminate].
  - rewrite andb_true_iff, IH1, IH2. split.
    + intros [H1 H2]. change "" with ("" +:+ ""). constructor; [exact H1|].
      cbn [re.is_empty]. now rewrite andb_true_r.
    + intros (w1 & w2 & Hw & H1 & H2)%matches_seq_inv. symmetry in Hw.
      apply str_app_eq_nil in Hw as [-> ->].
      cbn [re.is_empty] in H2. rewrite andb_true_r in H2. now split.
  - rewrite orb_true_iff, IH1, IH2. split.
    + intros [H | H]; [now apply re.m_alt_l | now apply re.m_alt_r].
    + apply matches_alt_inv.
  - split; [constructor | reflexivity].
Qed.

Lemma deriv_correct (r : re.Pattern) (b : bool) (c : ascii) (w : string) :
  re.matches b r (String c w) <-> re.matches false (re.deriv b c r) w.
Proof.
  revert b w. induction r as [| | |d|lo hi|r1 IH1 r2 IH2|r1 IH1 r2 IH2|r IH];
    intros b w; cbn [re.deriv].
  - split; inversion 1.
  - split; inversion 1.
  - split; inversion 1.
  - split.
    + intros [= -> ->]%matches_chr_inv. rewrite Ascii.eqb_refl. constructor.
    + destruct (Ascii.eqb c d) eqn:E; inversion 1; subst.
      apply Ascii.eqb_eq in E as ->. constructor.
  - split.
    + intros (c' & [= -> ->] & Hr)%matches_rng_inv. rewrite Hr. constructor.
    + destruct (re.in_range lo hi c) eqn:E; inversion 1; subst.
      now constructor.
  - split.
    + intros (w1 & w2 & Hw & H1 & H2)%matches_seq_inv.
      destruct w1 as [|c' w1]; cbn in Hw.
      * subst w2. cbn [re.is_empty] in H2. rewrite andb_true_r in H2.
        apply re.m_alt_r. apply nullable_correct in H1. rewrite H1.
        now apply IH2.
      * injection Hw as <- ->. apply re.m_alt_l.
        cbn [re.is_empty] in H2. rewrite andb_false_r in H2.
        constructor; [now apply IH1 | exact H2].
    + intros [Hl | Hr]%matches_alt_inv.
      * apply matches_seq_inv in Hl as (w1 & w2 & -> & H1 & H2).
        cbn [andb] in H2. change (String c (w1 +:+ w2)) with (String c w1 +:+ w2).
        constructor; [now apply IH1|].
        cbn [re.is_empty]. now rewrite andb_false_r.
      * destruct (re.nullable b r1) eqn:E; [|inversion Hr].
        change (String c w) with ("" +:+ String c w).
        constructor; [now apply nullable_correct|].
        cbn [re.is_empty]. rewrite andb_true_r. now apply IH2.
  - split.
    + intros [H | H]%matches_alt_inv;
        [apply re.m_alt_l; now apply IH1 | apply re.m_alt_r; now apply IH2].
    + intros [H | H]%matches_alt_inv;
        [apply re.m_alt_l; now apply IH1 | apply re.m_alt_r; now apply IH2].
  - split.
    + intros [H | (c' & w1 & w2 & Hw & H1 & H2)]%matches_star_inv;
        [discriminate|].
      cbn in Hw. injection Hw as <- ->.
      constructor; [now apply IH | exact H2].
    + intros (w1 & w2 & -> & H1 & H2)%matches_seq_inv.
      cbn [andb] in H2. change (String c (w1 +:+ w2)) with (String c w1 +:+ w2).
      constructor; [now apply IH | exact H2].
Qed.

(** [match_from b r s] holds exactly when [r] matches some prefix of [s]. *)
Lemma match_from_correct (s : string) (b : bool) (r : re.Pattern) :
  re.match_from b r s = true
  <-> exists w rest, s = w +:+ rest /\ re.matches b r w.
Proof.
  revert b r. induction s as [|c s IH]; intros b r; cbn [re.match_from].
  - rewrite orb_false_r, nullable_correct. split.
    + intros H. now exists "", "".
    + intros (w & rest & Hs & H). symmetry in Hs.
      apply str_app_eq_nil in Hs as [-> _]. exact H.
  - rewrite orb_true_iff, nullable_correct, IH. split.
    + intros [H | (w & rest & -> & H)].
      * now exists "", (String c s).
      * exists (String c w), rest. split; [reflexivity | now apply deriv_correct].
    + intros (w & rest & Hs & H). destruct w as [|c' w]; [now left|].
      cbn in Hs. injection Hs as <- ->. right.
      exists w, rest. split; [reflexivity | now apply deriv_correct].
Qed.

(** ** Blacklisting *)

Lemma in_blacklist_existsb (patterns : list re.Pattern) (func_name : string) :
  in_blacklist patterns (Some func_name)
  = Ok (existsb (fun p => re.match_from true p func_name) patterns).
Proof.
  induction patterns as [|p patterns IH]; cbn; [reflexivity|].
  destruct (re.match_from true p func_name); [reflexivity | exact IH].
Qed.

Lemma in_blacklist_correct (patterns : list re.Pattern) (func_name : string) :
  in_blacklist patterns (Some func_name) = Ok true
  <-> exists p, In p patterns
        /\ exists w rest, func_name = w +:+ rest /\ re.matches true p w.
Proof.
  rewrite in_blacklist_existsb. split.
  - intros [= H]. apply existsb_exists in H as (p & Hin & Hm).
    exists p. split; [exact Hin | now apply match_from_correct].
  - intros (p & Hin & Hm). f_equal. apply existsb_exists.
    exists p. split; [exact Hin | now apply match_from_correct].
Qed.

Lemma log_neq_self (self : generator) (lv : level) (msg : string) :
  log self lv msg <> self.
Proof.
  intros H. apply (f_equal logger) in H. cbn in H.
  apply (f_equal (@length _)) in H. rewrite length_app in H. cbn in H. lia.
Qed.

(** C7: a function named [func_name] is discarded by blacklisting, that is
    [__add_lvgl_func__] logs the informational record and returns [False],
    if and only if some pattern of the list matches a prefix of the name
    starting at its first character; with an empty list this never
    happens. *)
Theorem C7_blacklist_prefix_match (self : generator) (func_node : node)
  (func_name : string) :
  node_name func_node = Ok (Some func_name) ->
  (add_lvgl_func self func_node
   = (log self INFO ("Function " +:+ func_name +:+ " is in blacklist."), Ok false)
   <-> exists p, In p (blacklist_func_patterns self)
         /\ exists w rest, func_name = w +:+ rest /\ re.matches true p w)
  /\ (blacklist_func_patterns self = [] ->
      add_lvgl_func self func_node
      <> (log self INFO ("Function " +:+ func_name +:+ " is in blacklist."), Ok false)).
Proof.
  intros Hn.
  assert (Hiff :
    add_lvgl_func self func_node
    = (log self INFO ("Function " +:+ func_name +:+ " is in blacklist."), Ok false)
    <-> in_blacklist (blacklist_func_patterns self) (Some func_name) = Ok true).
  { unfold add_lvgl_func. rewrite Hn, in_blacklist_existsb.
    destruct (existsb _ (blacklist_func_patterns self)).
    - cbn [format_arg]. tauto.
    - split; [|discriminate]. intros H. exfalso.
      destruct (already_added (func_list self) (Some func_name)).
      { injection H as H. symmetry in H. now apply log_neq_self in H. }
      destruct (c_decl_to_c_obj func_node) as [f|e]; [discriminate|].
      destruct (is_NotImplementedError e); [|discriminate].
      cbn [str_add] in H. injection H as H.
      apply app_inv_head in H. discriminate. }
  split.
  - rewrite Hiff. apply in_blacklist_correct.
  - intros Hnil. rewrite Hiff, Hnil. discriminate.
Qed.

(** With the default pattern [^(_lv){1}], [_lv_internal] is discarded by
    blacklisting and [lv_public] is collected. *)
Lemma C7_blacklist_prefix_match_witness :
  (add_lvgl_func new_generator
     (Decl (Some "_lv_internal") [] [] [] [] (FuncDecl (Some [void_param]) void_t))
   = (log new_generator INFO ("Function " +:+ "_lv_internal" +:+ " is in blacklist."),
      Ok false)
   <-> exists p, In p (blacklist_func_patterns new_generator)
         /\ exists w rest, "_lv_internal" = w +:+ rest /\ re.matches true p w)
  /\ (blacklist_func_patterns new_generator = [] ->
      add_lvgl_func new_generator
        (Decl (Some "_lv_internal") [] [] [] [] (FuncDecl (Some [void_param]) void_t))
      <> (log new_generator INFO ("Function " +:+ "_lv_internal" +:+ " is in blacklist."),
          Ok false)).
Proof.
  apply (C7_blacklist_prefix_match new_generator
           (Decl (Some "_lv_internal") [] [] [] [] (FuncDecl (Some [void_param]) void_t))
           "_lv_internal").
  reflexivity.
Defined.

Example blacklist_default :
  add_lvgl_func new_generator
    (Decl (Some "_lv_internal") [] [] [] [] (FuncDecl (Some [void_param]) void_t))
  = (log new_generator INFO "Function _lv_internal is in blacklist.", Ok false)
  /\ (exists f,
        add_lvgl_func new_generator
          (Decl (Some "lv_public") [] [] [] [] (FuncDecl (Some [void_param]) void_t))
        = (append_func new_generator f, Ok true)).
Proof. split; [reflexivity|]. eexists. reflexivity. Qed.

(** ** The version pattern and its recognizer *)

Lemma matches_lit (s : string) (b : bool) (w : string) :
  re.matches b (re.Lit s) w <-> w = s.
Proof.
  revert b w. induction s as [|c s IH]; intros b w; cbn [re.Lit].
  - split; [now inversion 1 | intros ->; constructor].
  - split.
    + intros (w1 & w2 & -> & H1%matches_chr_inv & H2%IH)%matches_seq_inv.
      now subst.
    + intros ->. change (String c s) with (String c "" +:+ s).
      constructor; [constructor | now apply IH].
Qed.

Lemma matches_star_class (r : re.Pattern) (ok : ascii -> bool) :
  (forall b w, re.matches b r w <-> exists c, w = String c "" /\ ok c = true) ->
  forall w b, re.matches b (re.Star r) w <-> all_chars ok w = true.
Proof.
  intros Hr. induction w as [|c w IH]; intros b.
  - split; [reflexivity | constructor].
  - cbn [all_chars]. rewrite andb_true_iff. split.
    + intros [H | (c' & w1 & w2 & Hw & H1 & H2)]%matches_star_inv; [discriminate|].
      apply Hr in H1 as (c'' & [= -> ->] & Hok).
      cbn in Hw. injection Hw as <- <-. split; [exact Hok | now apply (IH false)].
    + intros [Hok Hall]. change (String c w) with (String c "" +:+ w).
      constructor; [apply Hr; eauto | now apply IH].
Qed.

Lemma matches_plus_class (r : re.Pattern) (ok : ascii -> bool) :
  (forall b w, re.matches b r w <-> exists c, w = String c "" /\ ok c = true) ->
  forall w b, re.matches b (re.Plus r) w
    <-> exists c w', w = String c w' /\ ok c = true /\ all_chars ok w' = true.
Proof.
  intros Hr w b. unfold re.Plus. split.
  - intros (w1 & w2 & -> & (c & -> & Hok)%Hr & H2)%matches_seq_inv.
    exists c, w2. split; [reflexivity|]. split; [exact Hok|].
    now apply (matches_star_class r ok Hr) in H2.
  - intros (c & w' & -> & Hok & Hall).
    change (String c w') with (String c "" +:+ w').
    constructor; [apply Hr; eauto | now apply (matches_star_class r ok Hr)].
Qed.

Lemma matches_space (b : bool) (w : string) :
  re.matches b (re.Chr " ") w <-> exists c, w = String c "" /\ is_space c = true.
Proof.
  split.
  - intros ->%matches_chr_inv. now exists " "%char.
  - intros (c & -> & ->%Ascii.eqb_eq). constructor.
Qed.

Lemma matches_digit (b : bool) (w : string) :
  re.matches b (re.Rng "0" "9") w <-> exists c, w = String c "" /\ is_digit c = true.
Proof.
  split; [apply matches_rng_inv | intros (c & -> & H); now constructor].
Qed.

Lemma strip_prefix_spec (p s r : string) :
  strip_prefix p s = Some r <-> s = p +:+ r.
Proof.
  revert s. induction p as [|a p IH]; intros s; cbn.
  - split; congruence.
  - destruct s as [|c s]; [split; discriminate|].
    destruct (Ascii.eqb_spec a c) as [->|Hne].
    + rewrite IH. split; congruence.
    + split; [discriminate | congruence].
Qed.

(** Skipping spaces removes a run of spaces in front of a text that does not
    start with one. *)
Lemma skip_spaces_app (sp r : string) :
  all_chars is_space sp = true ->
  match r with String c _ => is_space c = false | EmptyString => True end ->
  skip_spaces (sp +:+ r) = r.
Proof.
  intros Hsp Hr. induction sp as [|c sp IH];
    cbn [skip_spaces String.append all_chars] in *.
  - destruct r as [|c r]; [reflexivity | cbn [skip_spaces]; now rewrite Hr].
  - apply andb_true_iff in Hsp as [-> Hsp]. now apply IH.
Qed.

Lemma skip_spaces_split (s : string) :
  exists sp, all_chars is_space sp = true /\ s = sp +:+ skip_spaces s.
Proof.
  induction s as [|c s (sp & Hsp & Hs)]; cbn [skip_spaces].
  - now exists "".
  - destruct (is_space c) eqn:E.
    + exists (String c sp). cbn [all_chars String.append]. rewrite E, Hsp.
      split; [reflexivity | congruence].
    + now exists "".
Qed.

Lemma take_digits_split (s : string) :
  exists rest, all_chars is_digit (take_digits s) = true /\ s = take_digits s +:+ rest.
Proof.
  induction s as [|c s (rest & Hd & Hs)]; cbn [take_digits].
  - now exists "".
  - destruct (is_digit c) eqn:E.
    + exists rest. cbn [all_chars String.append]. rewrite E, Hd.
      split; [reflexivity | congruence].
    + now exists (String c s).
Qed.

Lemma digit_not_space (c : ascii) : is_digit c = true -> is_space c = false.
Proof.
  intros H. unfold is_space. destruct (Ascii.eqb_spec c " ") as [->|]; [|reflexivity].
  vm_compute in H. discriminate.
Qed.

(** The recognizer accepts exactly the lines on which the compiled pattern
    matches, for a macro name that starts with a character other than a
    space, as the three version macros do. *)
Lemma version_match_regex (macro line : string) :
  match macro with String c _ => is_space c = false | EmptyString => False end ->
  re.match_ (version_regex macro) (Some line) = Ok true
  <-> is_Some (version_match macro line).
Proof.
  intros Hmacro. cbn [re.match_].
  assert (Hm : re.match_from true (version_regex macro) line = true
               <-> is_Some (version_match macro line)).
  2:{ split; [intros [= H]; now apply Hm | intros H; f_equal; now apply Hm]. }
  rewrite match_from_correct. unfold version_regex, version_match. split.
  - intros (w & rest & -> & H).
    apply matches_seq_inv in H as (w0 & t0 & -> & H0 & H).
    inversion H0; subst. cbn [re.is_empty andb String.append] in *.
    apply matches_seq_inv in H as (w1 & t1 & -> & ->%matches_lit & H).
    cbn [re.is_empty andb] in H.
    apply matches_seq_inv in H as (w2 & t2 & -> & H2 & H).
    apply (matches_plus_class _ _ matches_space) in H2 as (c2 & sp2 & -> & Hc2 & Hsp2).
    cbn [re.is_empty andb] in H.
    apply matches_seq_inv in H as (w3 & t3 & -> & ->%matches_lit & H).
    rewrite andb_false_l in H.
    apply matches_seq_inv in H as (w4 & w5 & -> & H4 & H5).
    apply (matches_plus_class _ _ matches_space) in H4 as (c4 & sp4 & -> & Hc4 & Hsp4).
    apply (matches_plus_class _ _ matches_digit) in H5 as (d & ds & -> & Hd & Hds).
    rewrite ?str_app_assoc.
    rewrite (proj2 (strip_prefix_spec "#define" _ _) eq_refl).
    cbn [mbind option_bind spaces1 String.append]. rewrite Hc2.
    cbn [mbind option_bind]. rewrite ?str_app_assoc.
    assert (Hs2 : forall X, skip_spaces (sp2 +:+ macro +:+ X) = macro +:+ X).
    { intros X. apply skip_spaces_app; [exact Hsp2|].
      destruct macro; [contradiction | exact Hmacro]. }
    rewrite Hs2.
    rewrite (proj2 (strip_prefix_spec macro _ _) eq_refl).
    cbn [mbind option_bind spaces1 String.append]. rewrite Hc4.
    cbn [mbind option_bind]. rewrite ?str_app_assoc.
    assert (Hs4 : forall X, skip_spaces (sp4 +:+ String d X) = String d X).
    { intros X. apply skip_spaces_app; [exact Hsp4 | now apply digit_not_space]. }
    rewrite Hs4.
    cbn [take_digits]. rewrite Hd. eauto.
  - intros [digits H].
    destruct (strip_prefix "#define" line) as [r1|] eqn:E1; [|discriminate].
    apply strip_prefix_spec in E1 as ->. cbn [mbind option_bind] in H.
    destruct r1 as [|c1 r1]; [discriminate|]. cbn [spaces1] in H.
    destruct (is_space c1) eqn:Ec1; [|discriminate]. cbn [mbind option_bind] in H.
    destruct (skip_spaces_split r1) as (sp1 & Hsp1 & Hr1).
    destruct (strip_prefix macro (skip_spaces r1)) as [r3|] eqn:E3; [|discriminate].
    apply strip_prefix_spec in E3. cbn [mbind option_bind] in H.
    destruct r3 as [|c3 r3]; [discriminate|]. cbn [spaces1] in H.
    destruct (is_space c3) eqn:Ec3; [|discriminate]. cbn [mbind option_bind] in H.
    destruct (skip_spaces_split r3) as (sp3 & Hsp3 & Hr3).
    destruct (take_digits_split (skip_spaces r3)) as (rest & Hds & Hrest).
    destruct (take_digits (skip_spaces r3)) as [|d ds] eqn:E5; [discriminate|].
    cbn [all_chars] in Hds. apply andb_true_iff in Hds as [Hd Hds].
    exists ("#define" +:+ String c1 sp1 +:+ macro +:+ String c3 sp3 +:+ String d ds), rest.
    split.
    + rewrite Hr1, E3, Hr3, Hrest at 1.
      do 4 (cbn [String.append]; rewrite ?str_app_assoc). reflexivity.
    + change ("#define" +:+ String c1 sp1 +:+ macro +:+ String c3 sp3 +:+ String d ds)
        with ("" +:+ "#define" +:+ String c1 sp1 +:+ macro +:+ String c3 sp3 +:+ String d ds).
      constructor; [constructor|]. cbn [re.is_empty andb].
      constructor; [now apply matches_lit|].
      constructor; [apply (matches_plus_class _ _ matches_space); eauto 6|].
      constructor; [now apply matches_lit|].
      constructor; [apply (matches_plus_class _ _ matches_space); eauto 6|].
      apply (matches_plus_class _ _ matches_digit); eauto 6.
Qed.

(** ** The version scan *)

Lemma resolve_step (macro : string) (field : N) (line : string) (lines : list string) :
  resolve macro (scan_field macro field (strip_eol line)) lines
  = resolve macro field (line :: lines).
Proof.
  unfold resolve, scan_field, matched_values. cbn [omap list_omap].
  destruct (N.eqb_spec field 0) as [->|Hf].
  - destruct (version_match macro (strip_eol line)) as [digits|]; cbn [fmap option_fmap option_map].
    + unfold first_nonzero. rewrite filter_cons.
      destruct (N.eqb_spec (int digits) 0) as [->|Hd].
      * cbn. reflexivity.
      * destruct (decide (int digits <> 0%N)); [reflexivity | contradiction].
    + reflexivity.
  - destruct (N.eqb_spec field 0); [contradiction | reflexivity].
Qed.

Lemma scan_lines_resolve (lines : list string) (v : lvgl_version) :
  fold_left scan_line lines v
  = mk_version (resolve major_macro (lvgl_version_major v) lines)
      (resolve minor_macro (lvgl_version_minor v) lines)
      (resolve patch_macro (lvgl_version_patch v) lines).
Proof.
  revert v. induction lines as [|line lines IH]; intros v.
  - destruct v as [a b c]. cbn [fold_left]. unfold resolve, matched_values, first_nonzero.
    cbn. destruct (N.eqb_spec a 0), (N.eqb_spec b 0), (N.eqb_spec c 0);
      subst; reflexivity.
  - cbn [fold_left]. rewrite IH. unfold scan_line.
    cbn [lvgl_version_major lvgl_version_minor lvgl_version_patch].
    now rewrite !resolve_step.
Qed.

Lemma hd_Permutation_single (a b : list N) :
  Permutation a b -> (forall x y, In x a -> In y a -> x = y) -> hd 0%N a = hd 0%N b.
Proof.
  intros Hp Hs. destruct a as [|x a], b as [|y b]; cbn.
  - reflexivity.
  - now apply Permutation_nil_cons in Hp.
  - symmetry in Hp. now apply Permutation_nil_cons in Hp.
  - apply Hs; [now left|]. apply (Permutation_in y (Permutation_sym Hp)). now left.
Qed.

(** C8: each of major, minor and patch returned by the version scan is the
    first non-zero value among the lines matching its pattern, and zero when
    no line matches; hence two version headers whose lines are a
    rearrangement of each other, each field being given at most one non-zero
    value, resolve to the same triple; and the header that defines PATCH,
    MAJOR and MINOR as 1, 9 and 2, in that order, resolves to [9; 2; 1]. *)
Theorem C8_version_scan_order_independent :
  (forall lvgl_h,
     snd (get_lvgl_version lvgl_h)
     = [first_nonzero (matched_values major_macro (readlines lvgl_h));
        first_nonzero (matched_values minor_macro (readlines lvgl_h));
        first_nonzero (matched_values patch_macro (readlines lvgl_h))])
  /\ (forall lvgl_h lvgl_h',
        Permutation (readlines lvgl_h) (readlines lvgl_h') ->
        single_valued (readlines lvgl_h) ->
        snd (get_lvgl_version lvgl_h) = snd (get_lvgl_version lvgl_h'))
  /\ snd (get_lvgl_version version_example) = [9%N; 2%N; 1%N].
Proof.
  assert (Hchar : forall lvgl_h,
     snd (get_lvgl_version lvgl_h)
     = [first_nonzero (matched_values major_macro (readlines lvgl_h));
        first_nonzero (matched_values minor_macro (readlines lvgl_h));
        first_nonzero (matched_values patch_macro (readlines lvgl_h))]).
  { intros lvgl_h. unfold get_lvgl_version. cbn [snd].
    rewrite scan_lines_resolve. reflexivity. }
  split; [exact Hchar|]. split; [|reflexivity].
  intros h h' Hp Hs. rewrite !Hchar.
  assert (Hone : forall macro, In macro [major_macro; minor_macro; patch_macro] ->
            first_nonzero (matched_values macro (readlines h))
            = first_nonzero (matched_values macro (readlines h'))).
  { intros macro Hm. unfold first_nonzero. apply hd_Permutation_single.
    - unfold matched_values. now rewrite Hp.
    - now apply Hs. }
  rewrite (Hone major_macro), (Hone minor_macro), (Hone patch_macro);
    cbn; tauto.
Qed.

Lemma C8_version_scan_order_independent_witness :
  snd (get_lvgl_version version_example)
  = snd (get_lvgl_version version_example_reordered).
Proof.
  apply (proj1 (proj2 C8_version_scan_order_independent)).
  - vm_compute. eapply perm_trans; [apply perm_swap|]. apply perm_skip, perm_swap.
  - intros macro [<- | [<- | [<- | []]]] x y; vm_compute;
      intros [<- | []] [<- | []]; reflexivity.
Defined.

(** The header of the example resolves alike when its lines end with a
    carriage return, or with a carriage return and a line feed. *)
Example version_example_line_ends :
  snd (get_lvgl_version
         ("#define LVGL_VERSION_PATCH 1" +:+ String CR ""
          +:+ "#define LVGL_VERSION_MAJOR 9" +:+ String CR ""
          +:+ "#define LVGL_VERSION_MINOR 2" +:+ String CR "")) = [9%N; 2%N; 1%N]
  /\ snd (get_lvgl_version
            ("#define LVGL_VERSION_PATCH 1" +:+ CRLF
             +:+ "#define LVGL_VERSION_MAJOR 9" +:+ CRLF
             +:+ "#define LVGL_VERSION_MINOR 2" +:+ CRLF)) = [9%N; 2%N; 1%N].
Proof. split; reflexivity. Qed.

(** ** More on the converter *)

Lemma c_decl_to_c_obj_FuncDecl (nm : option string) (quals storage funcspec : list string)
  (ps : list node) (rt : node) :
  c_decl_to_c_obj (Decl nm quals [] storage funcspec (FuncDecl (Some ps) rt))
  = (os ← convert_params ps [];
     '(t, a, p) ← get_nesting_type rt;
     mret (c_func_obj_decl (mk_fields nm quals [] storage t a p) funcspec t os)).
Proof. reflexivity. Qed.

Lemma convert_params_spec (ps : list node) (acc r : list c_obj) :
  convert_params ps acc = Ok r
  <-> exists os, Forall2 (fun p o => c_decl_to_c_obj p = Ok o) ps os /\ r = acc ++ os.
Proof.
  revert acc. induction ps as [|p ps IH]; intros acc; cbn [convert_params].
  - split.
    + intros [= <-]. exists []. split; [constructor | now rewrite List.app_nil_r].
    + intros (os & Hf & ->). inversion Hf. now rewrite List.app_nil_r.
  - destruct (c_decl_to_c_obj p) as [o|e] eqn:Hp; cbn [mbind result_bind].
    + rewrite IH. split.
      * intros (os & Hf & ->). exists (o :: os).
        split; [now constructor | now rewrite <- List.app_assoc].
      * intros (os & Hf & ->). inversion Hf as [|? o' ? os' Ho Hf']; subst.
        assert (o' = o) as -> by congruence.
        exists os'. split; [exact Hf' | now rewrite <- List.app_assoc].
    + split; [discriminate|].
      intros (os & Hf & _). inversion Hf; subst. congruence.
Qed.

Lemma convert_params_ellipsis (pre post : list node) (acc : list c_obj) :
  Forall (fun p => exists o, c_decl_to_c_obj p = Ok o) pre ->
  convert_params (pre ++ EllipsisParam :: post) acc
  = Raise (EllipsisParamException "EllipsisParam is not supported temporarily.").
Proof.
  intros Hpre. revert acc. induction Hpre as [|p pre (o & Ho) _ IH]; intros acc.
  - reflexivity.
  - cbn [app convert_params]. rewrite Ho. cbn [mbind result_bind]. apply IH.
Qed.

Lemma strip_ArrayDecl_pointer_to_Typename (P : nat) (nm : option string)
  (quals : list string) (t : node) (k : nat) :
  strip_ArrayDecl (pointer_to P (Typename nm quals t)) k
  = (pointer_to P (Typename nm quals t), k).
Proof. destruct P; reflexivity. Qed.

(** X1: on a declarator with [A] array levels outside [P] pointer levels,
    the resolver returns the two depths and, as base type, the first token
    of an identifier type, whatever tokens follow it, or [struct] and the
    tag of a named struct; a [Typename] wrapper under the array and pointer
    levels is looked through. *)
Theorem X1_resolver_base_type (A P : nat) (first : string) (others : list string)
  (tag : string) (nm : option string) (quals : list string) :
  get_nesting_type
    (array_of A (pointer_to P (TypeDecl (IdentifierType (first :: others)))))
  = Ok (first, A, P)
  /\ get_nesting_type (array_of A (pointer_to P (TypeDecl (Struct (Some tag)))))
     = Ok ("struct " +:+ tag, A, P)
  /\ get_nesting_type
       (array_of A
          (pointer_to P
             (Typename nm quals (TypeDecl (IdentifierType (first :: others))))))
     = Ok (first, A, P).
Proof.
  split; [now rewrite get_nesting_type_declarator|].
  split; [now rewrite get_nesting_type_declarator|].
  unfold get_nesting_type.
  rewrite strip_ArrayDecl_array_of, strip_ArrayDecl_pointer_to_Typename,
    strip_PtrDecl_pointer_to.
  reflexivity.
Qed.

(** X2: a declarator with a pointer level outside an array level, or a
    pointer to a function as callback parameters have, is not resolved: the
    resolver raises the plain exception for an unknown type, and so does it
    for a struct without a tag with a type error. *)
Theorem X2_resolver_rejects_pointer_to_array (A P : nat) (x : node)
  (args : option (list node)) :
  get_nesting_type (array_of A (pointer_to (S P) (ArrayDecl x)))
  = Raise (Exception "Unknown type: ")
  /\ get_nesting_type (array_of A (pointer_to (S P) (FuncDecl args x)))
     = Raise (Exception "Unknown type: ")
  /\ exists msg,
       get_nesting_type (array_of A (pointer_to P (TypeDecl (Struct None))))
       = Raise (TypeError msg).
Proof.
  split; [|split].
  - unfold get_nesting_type. rewrite strip_ArrayDecl_array_of.
    cbn [pointer_to strip_ArrayDecl]. cbn [strip_PtrDecl].
    now rewrite strip_PtrDecl_pointer_to.
  - unfold get_nesting_type. rewrite strip_ArrayDecl_array_of.
    cbn [pointer_to strip_ArrayDecl]. cbn [strip_PtrDecl].
    now rewrite strip_PtrDecl_pointer_to.
  - rewrite get_nesting_type_declarator. cbn. eauto.
Qed.

(** X3: a function declared with an ellipsis among its parameters, however
    many convertible parameters precede it and whatever follows, that is
    neither blacklisted nor already collected, is discarded by
    [__add_lvgl_func__]: the list of functions is unchanged, one warning is
    logged and the call returns [False]. *)
Theorem X3_variadic_function_discarded (self : generator) (func_name : string)
  (quals storage funcspec : list string) (pre post : list node) (rt : node) :
  Forall (fun p => exists o, c_decl_to_c_obj p = Ok o) pre ->
  in_blacklist (blacklist_func_patterns self) (Some func_name) = Ok false ->
  already_added (func_list self) (Some func_name) = false ->
  add_lvgl_func self
    (Decl (Some func_name) quals [] storage funcspec
       (FuncDecl (Some (pre ++ EllipsisParam :: post)) rt))
  = (log self WARNING
       ("Parse function error: " +:+ func_name
        +:+ " error: EllipsisParam is not supported temporarily."),
     Ok false).
Proof.
  intros Hpre Hb Ha.
  erewrite add_lvgl_func_convert; [|reflexivity | exact Hb | exact Ha].
  rewrite c_decl_to_c_obj_FuncDecl, (convert_params_ellipsis pre post [] Hpre).
  reflexivity.
Qed.

Lemma X3_variadic_function_discarded_witness :
  add_lvgl_func new_generator
    (Decl (Some "v") [] [] [] []
       (FuncDecl (Some ([Decl (Some "a") [] [] [] [] int_t] ++ EllipsisParam :: [])) int_t))
  = (log new_generator WARNING
       ("Parse function error: " +:+ "v"
        +:+ " error: EllipsisParam is not supported temporarily."),
     Ok false).
Proof.
  apply (X3_variadic_function_discarded new_generator "v" [] [] []
           [Decl (Some "a") [] [] [] [] int_t] [] int_t).
  - constructor; [eexists; reflexivity | constructor].
  - reflexivity.
  - reflexivity.
Defined.

(** X4: a function declaration without alignment converts exactly when
    each parameter converts and the return type resolves; the function
    object then carries the declaration's name, qualifiers, storage and
    function specifiers, the resolved return type and depths, and the
    converted parameters in their order. *)
Theorem X4_function_conversion (nm : option string)
  (quals storage funcspec : list string) (ps : list node) (rt : node) (f : c_obj) :
  c_decl_to_c_obj (Decl nm quals [] storage funcspec (FuncDecl (Some ps) rt)) = Ok f
  <-> exists os t a p,
        Forall2 (fun param o => c_decl_to_c_obj param = Ok o) ps os
        /\ get_nesting_type rt = Ok (t, a, p)
        /\ f = c_func_obj_decl (mk_fields nm quals [] storage t a p) funcspec t os.
Proof.
  rewrite c_decl_to_c_obj_FuncDecl. split.
  - destruct (convert_params ps []) as [os|e] eqn:Hos; [|discriminate].
    cbn [mbind result_bind].
    destruct (get_nesting_type rt) as [[[t a] p]|e] eqn:Hrt; [|discriminate].
    cbn [mbind mret result_bind result_ret]. intros [= <-].
    apply convert_params_spec in Hos as (os' & Hf & ->).
    now exists os', t, a, p.
  - intros (os & t & a & p & Hf & Hrt & ->).
    assert (Hos : convert_params ps [] = Ok os)
      by (apply convert_params_spec; now exists os).
    rewrite Hos. cbn [mbind result_bind]. rewrite Hrt. reflexivity.
Qed.

(** X5: a function declared with an empty pair of parentheses, whose
    parameter list the front-end leaves unset, raises a type error when it
    is reached, neither blacklisted nor a duplicate; the error leaves
    [__parse_header__] with the generator unchanged, and the declarations
    that follow are not visited. *)
Theorem X5_empty_parentheses_abort (self : generator) (func_name : string)
  (quals storage funcspec : list string) (rt : node) (rest : list node) :
  in_blacklist (blacklist_func_patterns self) (Some func_name) = Ok false ->
  already_added (func_list self) (Some func_name) = false ->
  parse_header_loop self
    (Decl (Some func_name) quals [] storage funcspec (FuncDecl None rt) :: rest)
  = (self, Raise (TypeError "NoneType object is not iterable")).
Proof.
  intros Hb Ha. cbn [parse_header_loop].
  erewrite add_lvgl_func_convert; [|reflexivity | exact Hb | exact Ha].
  reflexivity.
Qed.

Lemma X5_empty_parentheses_abort_witness :
  parse_header_loop new_generator
    (Decl (Some "f") [] [] [] [] (FuncDecl None int_t) :: [decl_f_void])
  = (new_generator, Raise (TypeError "NoneType object is not iterable")).
Proof.
  apply (X5_empty_parentheses_abort new_generator "f" [] [] [] int_t [decl_f_void]);
    reflexivity.
Defined.

(** ** More on the collector *)

Lemma parse_header_loop_ignored (self : generator) (ext : list node) :
  Forall (fun n => function_node n = None) ext ->
  parse_header_loop self ext = (self, Ok tt).
Proof.
  induction 1 as [|n ext Hn _ IH]; [reflexivity|].
  rewrite parse_header_loop_cons. unfold visit. rewrite Hn. exact IH.
Qed.

(** X6: top-level nodes that are neither function definitions nor
    declarations of functions, such as type definitions and variable
    declarations, are passed over: [__parse_header__] logs its one record,
    changes nothing else and returns the number of functions already
    collected. *)
Theorem X6_other_nodes_ignored (self : generator) (header_path : string)
  (ext : list node) :
  Forall (fun n => function_node n = None) ext ->
  parse_header self header_path ext
  = (log self INFO ("Parsing " +:+ header_path +:+ " ..."),
     Ok (length (func_list self))).
Proof.
  intros H. unfold parse_header.
  now rewrite (parse_header_loop_ignored _ ext H).
Qed.

Lemma X6_other_nodes_ignored_witness :
  parse_header new_generator "lvgl.h"
    [Typedef (Some "lv_coord_t") int_t; Decl (Some "lv_count") [] [] [] [] int_t]
  = (log new_generator INFO ("Parsing " +:+ "lvgl.h" +:+ " ..."),
     Ok (length (func_list new_generator))).
Proof.
  apply (X6_other_nodes_ignored new_generator "lvgl.h"
           [Typedef (Some "lv_coord_t") int_t; Decl (Some "lv_count") [] [] [] [] int_t]).
  repeat constructor.
Defined.

Lemma parse_header_loop_all_collected (ext : list node) (fs : list c_obj)
  (self : generator) :
  Forall2 (fun n f => exists d func_name,
             function_node n = Some d /\ node_name d = Ok (Some func_name)
             /\ in_blacklist (blacklist_func_patterns self) (Some func_name) = Ok false
             /\ c_decl_to_c_obj d = Ok f) ext fs ->
  NoDup (collected_names self ++ map (fun f => name (fields f)) fs) ->
  parse_header_loop self ext
  = (mk_generator (blacklist_func_patterns self) (func_list self ++ fs) (logger self),
     Ok tt).
Proof.
  revert fs self.
  induction ext as [|n ext IH]; intros fs self Hall Hnd.
  - inversion Hall; subst. rewrite List.app_nil_r. now destruct self.
  - inversion Hall as [|? f ? fs' (d & func_name & Hfn & Hn & Hb & Hc) Hrest]; subst.
    rewrite parse_header_loop_cons. unfold visit. rewrite Hfn.
    assert (Hname : name (fields f) = Some func_name)
      by exact (c_decl_to_c_obj_name d f _ Hc Hn).
    assert (Ha : already_added (func_list self) (Some func_name) = false).
    { apply already_added_false. apply NoDup_ListNoDup in Hnd.
      cbn [map] in Hnd. apply List.NoDup_remove_2 in Hnd.
      intros Hin. apply Hnd. apply in_or_app. left. now rewrite Hname. }
    rewrite (add_lvgl_func_convert self d func_name Hn Hb Ha), Hc. cbn [fst snd].
    rewrite (IH fs' (append_func self f)).
    + cbn. now rewrite <- List.app_assoc.
    + exact Hrest.
    + unfold collected_names in *. cbn [append_func func_list].
      rewrite map_app. cbn [map]. now rewrite <- List.app_assoc.
Qed.

(** X7: when every top-level node is a function definition or declaration
    with a name that no pattern blacklists, the conversions all succeed and
    the names are distinct from each other and from the names already
    collected, [__parse_header__] appends all the converted functions, in
    the order of the translation unit, and returns the new length of the
    list. *)
Theorem X7_all_eligible_collected_in_order (self : generator) (header_path : string)
  (ext : list node) (fs : list c_obj) :
  Forall2 (fun n f => exists d func_name,
             function_node n = Some d /\ node_name d = Ok (Some func_name)
             /\ in_blacklist (blacklist_func_patterns self) (Some func_name) = Ok false
             /\ c_decl_to_c_obj d = Ok f) ext fs ->
  NoDup (collected_names self ++ map (fun f => name (fields f)) fs) ->
  parse_header self header_path ext
  = (mk_generator (blacklist_func_patterns self) (func_list self ++ fs)
       (logger self ++ [(INFO, "Parsing " +:+ header_path +:+ " ...")]),
     Ok (length (func_list self) + length fs)).
Proof.
  intros Hall Hnd. unfold parse_header.
  rewrite (parse_header_loop_all_collected ext fs
             (log self INFO ("Parsing " +:+ header_path +:+ " ...")) Hall Hnd).
  cbn. now rewrite length_app.
Qed.

Lemma X7_all_eligible_collected_in_order_witness :
  exists f g,
    parse_header new_generator "lvgl.h" [decl_f_void; FuncDef decl_lv_foo_int]
    = (mk_generator (blacklist_func_patterns new_generator)
         (func_list new_generator ++ [f; g])
         (logger new_generator ++ [(INFO, "Parsing " +:+ "lvgl.h" +:+ " ...")]),
       Ok (length (func_list new_generator) + length [f; g])).
Proof.
  eexists _, _.
  apply (X7_all_eligible_collected_in_order new_generator "lvgl.h"
           [decl_f_void; FuncDef decl_lv_foo_int]).
  - constructor; [|constructor; [|constructor]].
    + exists decl_f_void, "f". repeat split; reflexivity.
    + exists decl_lv_foo_int, "lv_foo". repeat split; reflexivity.
  - cbn. apply NoDup_ListNoDup.
    constructor; [intros [H | []]; discriminate H|].
    constructor; [intros []|constructor].
Defined.

(** A function is appended only after the blacklist loop found no match. *)
Lemma add_lvgl_func_appended (self : generator) (n : node) :
  func_list (fst (add_lvgl_func self n)) = func_list self
  \/ exists f,
       in_blacklist (blacklist_func_patterns self) (name (fields f)) = Ok false
       /\ func_list (fst (add_lvgl_func self n)) = func_list self ++ [f].
Proof.
  unfold add_lvgl_func.
  destruct (node_name n) as [nm|e] eqn:Hn; [|now left].
  destruct (in_blacklist (blacklist_func_patterns self) nm) as [[|]|e] eqn:Hb;
    [now left | | now left].
  destruct (already_added (func_list self) nm); [now left|].
  destruct (c_decl_to_c_obj n) as [f|e] eqn:Hc.
  - right. exists f. rewrite (c_decl_to_c_obj_name n f nm Hc Hn). now split.
  - destruct (is_NotImplementedError e); [|now left].
    destruct (str_add "Parse function error: " nm); now left.
Qed.

Lemma parse_header_loop_not_blacklisted (ext : list node) (self : generator) :
  Forall (fun f => in_blacklist (blacklist_func_patterns self) (name (fields f))
                   = Ok false) (func_list self) ->
  Forall (fun f => in_blacklist (blacklist_func_patterns self) (name (fields f))
                   = Ok false) (func_list (fst (parse_header_loop self ext))).
Proof.
  revert self. induction ext as [|n ext IH]; intros self Hinv; [exact Hinv|].
  rewrite parse_header_loop_cons.
  assert (Hpat : blacklist_func_patterns (fst (visit self n))
                 = blacklist_func_patterns self).
  { unfold visit. destruct (function_node n); [|reflexivity].
    apply add_lvgl_func_step. }
  assert (Hstep : Forall (fun f => in_blacklist (blacklist_func_patterns self)
                                     (name (fields f)) = Ok false)
                    (func_list (fst (visit self n)))).
  { unfold visit. destruct (function_node n) as [d|]; [|exact Hinv].
    destruct (add_lvgl_func_appended self d) as [-> | (f & Hb & ->)]; [exact Hinv|].
    apply Forall_app. split; [exact Hinv | now constructor]. }
  destruct (snd (visit self n)); [|exact Hstep].
  rewrite <- Hpat. apply IH. now rewrite Hpat.
Qed.

(** X8: after [__parse_header__] on a generator whose list of functions is
    empty, no pattern of the blacklist matches a prefix of the name of any
    collected function. *)
Theorem X8_no_collected_name_blacklisted (patterns : list re.Pattern)
  (records : list (level * string)) (header_path : string) (ext : list node)
  (f : c_obj) (func_name : string) :
  In f (func_list (fst (parse_header (mk_generator patterns [] records)
                          header_path ext))) ->
  name (fields f) = Some func_name ->
  forall p w rest,
    In p patterns -> func_name = w +:+ rest -> ~ re.matches true p w.
Proof.
  intros Hin Hname p w rest Hp Hsplit Hm. rewrite parse_header_fst in Hin.
  set (self := log (mk_generator patterns [] records) INFO
                 ("Parsing " +:+ header_path +:+ " ...")) in *.
  assert (Hinv : Forall (fun f => in_blacklist patterns (name (fields f)) = Ok false)
                   (func_list (fst (parse_header_loop self ext))))
    by (apply (parse_header_loop_not_blacklisted ext self); constructor).
  rewrite List.Forall_forall in Hinv. specialize (Hinv f Hin).
  rewrite Hname in Hinv.
  assert (Hyes : in_blacklist patterns (Some func_name) = Ok true)
    by (apply in_blacklist_correct; exists p; split; [exact Hp | now exists w, rest]).
  congruence.
Qed.

Lemma X8_no_collected_name_blacklisted_witness :
  ~ re.matches true (re.Seq re.Bol (re.Lit "_lv")) "lv_".
Proof.
  apply (fun Hin Hname Hp Hsplit =>
           X8_no_collected_name_blacklisted default_block_strategy [] "lvgl.h"
             [decl_lv_foo_int]
             (c_func_obj_decl (mk_fields (Some "lv_foo") [] [] [] "int" 0 0) [] "int"
                [c_obj_decl (mk_fields None [] [] [] "void" 0 0)])
             "lv_foo" Hin Hname (re.Seq re.Bol (re.Lit "_lv")) "lv_" "foo" Hp Hsplit).
  - vm_compute. left. reflexivity.
  - reflexivity.
  - left. reflexivity.
  - reflexivity.
Defined.

Lemma matches_default_pattern (w : string) :
  re.matches true (re.Seq re.Bol (re.Lit "_lv")) w <-> w = "_lv".
Proof.
  split.
  - intros (w1 & w2 & -> & H1 & H2)%matches_seq_inv. inversion H1; subst.
    now apply matches_lit in H2.
  - intros ->. change "_lv" with ("" +:+ "_lv").
    constructor; [constructor | now apply matches_lit].
Qed.

(** X9: with the default strategy a name is blacklisted exactly when it
    starts with [_lv]. *)
Theorem X9_default_strategy_blocks_lv_prefix (func_name : string) :
  in_blacklist default_block_strategy (Some func_name) = Ok true
  <-> exists rest, func_name = "_lv" +:+ rest.
Proof.
  rewrite in_blacklist_correct. unfold default_block_strategy. split.
  - intros (p & [<- | []] & w & rest & -> & Hm).
    change (re.Seq re.Bol (re.Seq (re.Chr "_") (re.Seq (re.Chr "l")
              (re.Seq (re.Chr "v") re.Eps))))
      with (re.Seq re.Bol (re.Lit "_lv")) in Hm.
    apply matches_default_pattern in Hm as ->. now exists rest.
  - intros (rest & ->). eexists. split; [now left|].
    exists "_lv", rest. split; [reflexivity | now apply matches_default_pattern].
Qed.

(** X10: after [add_blacklist_func_pattern] the list of patterns is the old
    list followed by the new pattern, and a name is blacklisted exactly when
    it was blacklisted before or the new pattern matches a prefix of it. *)
Theorem X10_added_pattern_extends_blacklist (self : generator)
  (func_pattern : re.Pattern) (func_name : string) :
  list_blacklist_func_patterns (add_blacklist_func_pattern self func_pattern)
  = list_blacklist_func_patterns self ++ [func_pattern]
  /\ (in_blacklist
        (blacklist_func_patterns (add_blacklist_func_pattern self func_pattern))
        (Some func_name) = Ok true
      <-> in_blacklist (blacklist_func_patterns self) (Some func_name) = Ok true
          \/ exists w rest, func_name = w +:+ rest /\ re.matches true func_pattern w).
Proof.
  split; [reflexivity|]. cbn [add_blacklist_func_pattern blacklist_func_patterns].
  rewrite !in_blacklist_correct. split.
  - intros (p & Hin & Hm). apply in_app_or in Hin as [Hin | [<- | []]].
    + left. now exists p.
    + now right.
  - intros [(p & Hin & Hm) | Hm].
    + exists p. split; [apply in_or_app; now left | exact Hm].
    + exists func_pattern. split; [apply in_or_app; right; now left | exact Hm].
Qed.

(** ** More on rendering *)

Lemma name_to_str_unnamed (self : c_obj_fields) (with_array : bool) :
  name self = None ->
  name_to_str self with_array = Ok None
  \/ exists msg, name_to_str self with_array = Raise (TypeError msg).
Proof.
  intros Hn. unfold name_to_str. rewrite Hn. destruct with_array; [|now left].
  induction (array_layers self) as [|A [IH | (msg & IH)]]; cbn [for_range].
  - now left.
  - right. rewrite IH. cbn. eauto.
  - right. rewrite IH. cbn. eauto.
Qed.

(** X11: an object declaration that has no name and whose rendered type is
    not [void], such as an unnamed [int] parameter, cannot be rendered:
    [to_str] raises a type error, with or without arrays and semicolon. *)
Theorem X11_unnamed_object_not_rendered (self : c_obj_fields)
  (semicolon with_array : bool) :
  name self = None ->
  String.eqb (type_to_str self true) "void" = false ->
  exists msg, obj_to_str self semicolon with_array = Raise (TypeError msg).
Proof.
  intros Hn Hv. unfold obj_to_str, neq_str. rewrite Hv. cbn [negb].
  destruct (name_to_str_unnamed self with_array Hn) as [-> | (msg & ->)];
    cbn; eauto.
Qed.

Lemma X11_unnamed_object_not_rendered_witness :
  exists msg,
    obj_to_str (mk_fields None [] [] [] "int" 0 0) false true = Raise (TypeError msg).
Proof.
  apply (X11_unnamed_object_not_rendered (mk_fields None [] [] [] "int" 0 0) false true);
    reflexivity.
Defined.

Lemma args_loop_unnamed (ps : list c_obj) (acc : string) :
  (exists p, In p ps /\ kept p = true /\ name (fields p) = None) ->
  exists msg, args_loop ps acc = Raise (TypeError msg).
Proof.
  revert acc. induction ps as [|q ps IH]; intros acc (p & Hin & Hk & Hn).
  - destruct Hin.
  - cbn [args_loop]. destruct ps as [|r ps].
    + destruct Hin as [-> | []]. rewrite Hk, Hn. cbn. eauto.
    + destruct Hin as [-> | Hin].
      * rewrite Hk, Hn. cbn. eauto.
      * assert (Hex : exists p, In p (r :: ps) /\ kept p = true /\ name (fields p) = None)
          by (exists p; now split).
        destruct (kept q); [|now apply IH].
        destruct (add_str (name (fields q)) ", ") as [piece|e] eqn:Hq;
          cbn [mbind result_bind]; [now apply IH|].
        destruct (name (fields q)); cbn in Hq; [discriminate|].
        injection Hq as <-. eauto.
Qed.

(** X12: when some parameter of a function is kept in the call, its
    rendered type not being [void], and has no name, [gen_func_call] raises
    a type error instead of returning a call. *)
Theorem X12_call_with_unnamed_parameter_raises (self : c_obj_fields)
  (funcspec : list string) (return_type : string) (params : list c_obj) :
  (exists p, In p params /\ kept p = true /\ name (fields p) = None) ->
  exists msg,
    gen_func_call (c_func_obj_decl self funcspec return_type params)
    = Raise (TypeError msg).
Proof.
  intros Hex. unfold gen_func_call. rewrite gen_func_param_args_loop.
  destruct (args_loop_unnamed params "" Hex) as (msg & ->). cbn. eauto.
Qed.

Lemma X12_call_with_unnamed_parameter_raises_witness :
  exists msg,
    gen_func_call
      (c_func_obj_decl (mk_fields (Some "h") [] [] [] "void" 0 0) [] "void"
         [c_obj_decl (mk_fields None [] [] [] "int" 0 0)])
    = Raise (TypeError msg).
Proof.
  apply (X12_call_with_unnamed_parameter_raises
           (mk_fields (Some "h") [] [] [] "void" 0 0) [] "void"
           [c_obj_decl (mk_fields None [] [] [] "int" 0 0)]).
  eexists. split; [left; reflexivity | split; reflexivity].
Defined.

Lemma params_to_str_loop_spec (ps : list c_obj) (rs acc : list string) :
  Forall2 (fun p r => to_str_kw p false true = Ok r) ps rs ->
  params_to_str_loop ps acc = Ok (acc ++ rs).
Proof.
  intros H. revert acc. induction H as [|p r ps rs Hp _ IH]; intros acc.
  - cbn. now rewrite List.app_nil_r.
  - cbn [params_to_str_loop]. rewrite Hp. cbn [mbind result_bind].
    rewrite IH. now rewrite <- List.app_assoc.
Qed.

(** X13: the declaration text of a function named [n] whose parameters
    render to the texts [rs] is its qualifiers, storage and function
    specifiers, the rendered return type, a space, the name with one [[]]
    per array level, and the parameter texts joined by a comma and a space
    between parentheses, with a final semicolon when asked. *)
Theorem X13_function_declaration_text (self : c_obj_fields) (funcspec : list string)
  (return_type : string) (params : list c_obj) (n : string) (rs : list string)
  (semicolon : bool) :
  name self = Some n ->
  Forall2 (fun p r => to_str_kw p false true = Ok r) params rs ->
  to_str (c_func_obj_decl self funcspec return_type params) semicolon
  = Ok (function_specifiers self funcspec +:+ type_to_str self true +:+ " "
        +:+ n +:+ str_repeat "[]" (array_layers self)
        +:+ "(" +:+ join ", " rs +:+ ")" +:+ semicolon_str semicolon).
Proof.
  intros Hn Hps. cbn [to_str]. unfold func_to_str, params_to_str.
  rewrite (name_to_str_named self n Hn).
  rewrite (params_to_str_loop_spec params rs [] Hps).
  cbn [mbind mret result_bind result_ret str_add app]. unfold function_specifiers.
  destruct (truthy (quals_to_str self)), (truthy (storage_to_str self)),
    (truthy (funcspec_to_str funcspec)), semicolon;
    cbn [semicolon_str]; rewrite ?str_app_nil_r, ?str_app_assoc;
    cbn [String.append]; rewrite ?str_app_nil_r, ?str_app_assoc; reflexivity.
Qed.

Lemma X13_function_declaration_text_witness :
  to_str
    (c_func_obj_decl (mk_fields (Some "g") [] [] ["static"] "int" 0 1) ["inline"] "int"
       [c_obj_decl (mk_fields (Some "a") [] [] [] "int" 0 0);
        c_obj_decl (mk_fields (Some "b") ["const"] [] [] "char" 1 1)]) true
  = Ok "static inline int * g(int a, const char * b[]);".
Proof.
  apply (X13_function_declaration_text
           (mk_fields (Some "g") [] [] ["static"] "int" 0 1) ["inline"] "int"
           [c_obj_decl (mk_fields (Some "a") [] [] [] "int" 0 0);
            c_obj_decl (mk_fields (Some "b") ["const"] [] [] "char" 1 1)]
           "g" ["int a"; "const char * b[]"] true).
  - reflexivity.
  - repeat constructor.
Defined.

Lemma params_to_str_loop_function (pre post : list c_obj) (acc : list string)
  (self : c_obj_fields) (funcspec : list string) (return_type : string)
  (params : list c_obj) :
  Forall (fun p => exists r, to_str_kw p false true = Ok r) pre ->
  exists msg,
    params_to_str_loop
      (pre ++ c_func_obj_decl self funcspec return_type params :: post) acc
    = Raise (TypeError msg).
Proof.
  intros Hpre. revert acc. induction Hpre as [|p pre (r & Hr) _ IH]; intros acc.
  - cbn. eauto.
  - cbn [app params_to_str_loop]. rewrite Hr. cbn [mbind result_bind]. apply IH.
Qed.

(** X14: a function one of whose parameters is itself a function object,
    the parameters before it being renderable, has no declaration text:
    rendering the parameter list passes [with_array] to a method that does
    not take it, and [to_str] raises a type error. *)
Theorem X14_function_typed_parameter_not_rendered (self : c_obj_fields)
  (funcspec : list string) (return_type : string) (n : string)
  (pre post : list c_obj) (pself : c_obj_fields) (pspec : list string)
  (ptype : string) (pparams : list c_obj) (semicolon : bool) :
  name self = Some n ->
  Forall (fun p => exists r, to_str_kw p false true = Ok r) pre ->
  exists msg,
    to_str (c_func_obj_decl self funcspec return_type
              (pre ++ c_func_obj_decl pself pspec ptype pparams :: post)) semicolon
    = Raise (TypeError msg).
Proof.
  intros Hn Hpre. cbn [to_str]. unfold func_to_str, params_to_str.
  rewrite (name_to_str_named self n Hn).
  destruct (params_to_str_loop_function pre post [] pself pspec ptype pparams Hpre)
    as (msg & ->).
  cbn. eauto.
Qed.

Lemma X14_function_typed_parameter_not_rendered_witness :
  exists msg,
    to_str (c_func_obj_decl (mk_fields (Some "f") [] [] [] "void" 0 0) [] "void"
              ([] ++ c_func_obj_decl (mk_fields (Some "cb") [] [] [] "int" 0 0) [] "int" []
                  :: [])) false
    = Raise (TypeError msg).
Proof.
  apply (X14_function_typed_parameter_not_rendered
           (mk_fields (Some "f") [] [] [] "void" 0 0) [] "void" "f" [] []
           (mk_fields (Some "cb") [] [] [] "int" 0 0) [] "int" [] false).
  - reflexivity.
  - constructor.
Defined.

(** ** Text replacement and line handling *)

Lemma prefix_spec (p s : string) :
  String.prefix p s = true <-> exists r, s = p +:+ r.
Proof.
  revert s. induction p as [|a p IH]; intros s.
  - split; [now exists s | now destruct s].
  - destruct s as [|b s]; cbn [String.prefix String.append];
      [split; [discriminate | intros (r & [=])]|].
    destruct (ascii_dec a b) as [->|Hne].
    + rewrite IH. split; intros (r & H); exists r; congruence.
    + split; [discriminate | intros (r & H); congruence].
Qed.

Lemma replace_from_skip (w s old new : string) :
  replace_from (String.length w) old new (w +:+ s) = replace_from 0 old new s.
Proof. induction w as [|c w IH]; [reflexivity | exact IH]. Qed.

Lemma replace_nonempty (c : ascii) (old new s : string) :
  replace (String c old) new s = replace_from 0 (String c old) new s.
Proof. reflexivity. Qed.

(** For a token that is not empty, [replace] works from the left:
    the empty text stays empty; a text that starts with the token becomes
    the new text followed by the replacement of what comes after the token,
    so that occurrences overlapping a replaced one are not seen; and a text
    that does not start with the token keeps its first character and has the
    rest replaced. *)
Lemma replace_leftmost (c : ascii) (old' new s : string) (d : ascii) :
  let old := String c old' in
  replace old new "" = ""
  /\ replace old new (old +:+ s) = new +:+ replace old new s
  /\ (String.prefix old (String d s) = false ->
      replace old new (String d s) = String d (replace old new s)).
Proof.
  intros old. subst old. split; [reflexivity|]. split.
  - rewrite !replace_nonempty. cbn [String.append replace_from].
    assert (Hp : String.prefix (String c old') (String c (old' +:+ s)) = true)
      by (apply prefix_spec; now exists s).
    rewrite Hp.
    replace (String.length (String c old') - 1) with (String.length old')
      by (cbn [String.length]; lia).
    now rewrite replace_from_skip.
  - intros Hp. rewrite !replace_nonempty. cbn [replace_from]. now rewrite Hp.
Qed.

Lemma replace_no_occurrence (c : ascii) (old' new s : string) :
  ~ occurs (String c old') s -> replace (String c old') new s = s.
Proof.
  rewrite replace_nonempty. induction s as [|d s IH]; intros Hno; [reflexivity|].
  cbn [replace_from].
  destruct (String.prefix (String c old') (String d s)) eqn:Hp.
  - exfalso. apply Hno. apply prefix_spec in Hp as (r & Hr).
    exists "", r. exact Hr.
  - f_equal. apply IH. intros (a & b & ->). apply Hno. now exists (String d a), b.
Qed.

Lemma replace_absent (old new s : string) :
  old <> "" -> ~ occurs old s -> replace old new s = s.
Proof.
  intros Hne Hno. destruct old as [|c old']; [contradiction|].
  now apply replace_no_occurrence.
Qed.

(** A text in which a token, not empty, does not occur is returned
    unchanged by [replace], whatever the new text is. *)
Lemma replace_without_occurrence (old new s : string) :
  old <> "" -> ~ occurs old s -> replace old new s = s.
Proof.
  intros Hne Hno. destruct old as [|c old']; [contradiction|].
  now apply replace_no_occurrence.
Qed.

Lemma prefix_nil (s : string) : String.prefix "" s = true.
Proof. now destruct s. Qed.

Lemma replace_char (c : ascii) (s : string) :
  replace (String c "") "" s = remove_char c s.
Proof.
  rewrite replace_nonempty. induction s as [|d s IH]; [reflexivity|].
  cbn [replace_from remove_char String.prefix].
  destruct (ascii_dec c d) as [->|Hne].
  - rewrite Ascii.eqb_refl, prefix_nil. cbn. exact IH.
  - destruct (Ascii.eqb_spec c d); [contradiction|]. now rewrite IH.
Qed.

Lemma remove_char_all (c : ascii) (ok : ascii -> bool) (s : string) :
  all_chars ok s = true -> all_chars ok (remove_char c s) = true.
Proof.
  induction s as [|d s IH]; [reflexivity|]. cbn [all_chars remove_char].
  intros [Hd Hs]%andb_true_iff. destruct (Ascii.eqb c d); [now apply IH|].
  cbn [all_chars]. now rewrite Hd, IH.
Qed.

Lemma remove_char_gone (c : ascii) (s : string) :
  all_chars (fun d => negb (Ascii.eqb c d)) (remove_char c s) = true.
Proof.
  induction s as [|d s IH]; [reflexivity|]. cbn [remove_char].
  destruct (Ascii.eqb c d) eqn:E; [exact IH|]. cbn [all_chars]. now rewrite E, IH.
Qed.

Lemma remove_char_absent (c : ascii) (s : string) :
  all_chars (fun d => negb (Ascii.eqb c d)) s = true -> remove_char c s = s.
Proof.
  induction s as [|d s IH]; [reflexivity|]. cbn [all_chars remove_char].
  intros [Hd Hs]%andb_true_iff. apply negb_true_iff in Hd. rewrite Hd.
  now rewrite IH.
Qed.

Lemma all_chars_and (f g : ascii -> bool) (s : string) :
  all_chars (fun c => f c && g c) s = all_chars f s && all_chars g s.
Proof.
  induction s as [|d s IH]; [reflexivity|]. cbn [all_chars]. rewrite IH.
  destruct (f d), (g d), (all_chars f s), (all_chars g s); reflexivity.
Qed.

(** X15: the line the scan matches against holds no carriage return and no
    newline, wherever they stood in the line read, and a line that holds
    neither is left as it is. *)
Theorem X15_strip_eol_removes_line_ends (line : string) :
  all_chars not_eol (strip_eol line) = true
  /\ (all_chars not_eol line = true -> strip_eol line = line).
Proof.
  unfold strip_eol, not_eol. rewrite !replace_char, !all_chars_and. split.
  - rewrite remove_char_gone, andb_true_r.
    apply remove_char_all, remove_char_gone.
  - intros [Hcr Hlf]%andb_true_iff.
    rewrite (remove_char_absent CR line Hcr). now apply remove_char_absent.
Qed.

Lemma X15_strip_eol_removes_line_ends_witness :
  all_chars not_eol (strip_eol "#define A 1") = true
  /\ (all_chars not_eol "#define A 1" = true -> strip_eol "#define A 1" = "#define A 1").
Proof. exact (X15_strip_eol_removes_line_ends "#define A 1"). Defined.

(** The pieces of a text, put one after the other, give the text back; none
    of them is empty; and each is a run of characters other than the line
    feed, followed by one line feed or, at the end of the text only, by
    nothing. *)
Lemma split_lines_partition (content : string) :
  String.concat "" (split_lines content) = content
  /\ Forall (fun line => line <> "") (split_lines content)
  /\ Forall (fun line => exists body, all_chars not_LF body = true
                /\ (line = body +:+ String LF "" \/ line = body))
       (split_lines content).
Proof.
  induction content as [|c content (Hcat & Hne & Hshape)]; cbn [split_lines].
  - repeat split; constructor.
  - destruct (Ascii.eqb_spec c LF) as [->|Hc].
    + split; [|split].
      * cbn [String.concat]. destruct (split_lines content) eqn:E.
        -- cbn in Hcat. now subst.
        -- cbn [String.append]. now rewrite Hcat.
      * constructor; [discriminate | exact Hne].
      * constructor; [|exact Hshape]. exists "". split; [reflexivity | now left].
    + destruct (split_lines content) as [|l ls] eqn:E.
      * cbn in Hcat. subst content. split; [reflexivity|]. split.
        -- constructor; [discriminate | constructor].
        -- constructor; [|constructor]. exists (String c "").
           split; [|now right]. cbn. unfold not_LF.
           destruct (Ascii.eqb_spec c LF); [contradiction | reflexivity].
      * split; [|split].
        -- rewrite <- Hcat. cbn [String.concat].
           destruct ls; cbn [String.append]; reflexivity.
        -- inversion Hne; subst. constructor; [discriminate | assumption].
        -- inversion Hshape as [|? ? (body & Hb & Hl) Hrest]; subst.
           constructor; [|exact Hrest]. exists (String c body). split.
           ++ cbn. unfold not_LF at 1.
              destruct (Ascii.eqb_spec c LF); [contradiction | exact Hb].
           ++ destruct Hl as [-> | ->]; [now left | now right].
Qed.

(** A text read in text mode holds no carriage return, and a stored text
    without one is read as it is. *)
Lemma universal_newlines_no_CR (content : string) :
  all_chars not_CR (universal_newlines content) = true.
Proof.
  assert (H : forall n content, String.length content <= n ->
                all_chars not_CR (universal_newlines content) = true).
  { clear content. induction n as [|n IH]; intros [|c content] Hlen;
      cbn [String.length] in Hlen; try reflexivity; [lia|].
    cbn [universal_newlines]. destruct (Ascii.eqb_spec c CR) as [->|Hc].
    - destruct content as [|c' content]; [reflexivity|].
      cbn [String.length] in Hlen.
      destruct (Ascii.eqb c' LF); cbn [all_chars];
        (rewrite IH; [reflexivity | cbn [String.length]; lia]).
    - cbn [all_chars]. rewrite IH by lia. unfold not_CR.
      destruct (Ascii.eqb_spec c CR); [contradiction | reflexivity]. }
  now apply (H (String.length content)).
Qed.

Lemma universal_newlines_id (content : string) :
  all_chars not_CR content = true -> universal_newlines content = content.
Proof.
  induction content as [|c content IH]; [reflexivity|].
  cbn [all_chars universal_newlines]. intros [Hc Hr]%andb_true_iff.
  unfold not_CR in Hc. apply negb_true_iff in Hc. rewrite Hc. now rewrite IH.
Qed.

(** The lines read from a file, put one after the other, give its text with
    every line end as one line feed; none of them is empty; and each is a run
    of characters other than the line feed, followed by one line feed or, at
    the end of the text only, by nothing. *)
Lemma readlines_partition (content : string) :
  String.concat "" (readlines content) = universal_newlines content
  /\ Forall (fun line => line <> "") (readlines content)
  /\ Forall (fun line => exists body, all_chars not_LF body = true
                /\ (line = body +:+ String LF "" \/ line = body))
       (readlines content).
Proof. apply split_lines_partition. Qed.

(** ** More on the version scan *)

Lemma all_chars_app (ok : ascii -> bool) (s t : string) :
  all_chars ok (s +:+ t) = all_chars ok s && all_chars ok t.
Proof.
  induction s as [|c s IH]; [reflexivity|]. cbn [String.append all_chars].
  now rewrite IH, andb_assoc.
Qed.

Lemma all_chars_impl (f g : ascii -> bool) (s : string) :
  (forall c, f c = true -> g c = true) ->
  all_chars f s = true -> all_chars g s = true.
Proof.
  intros Hfg. induction s as [|c s IH]; [reflexivity|]. cbn [all_chars].
  intros [Hc Hs]%andb_true_iff. now rewrite (Hfg c Hc), IH.
Qed.

Lemma all_spaces (n : nat) : all_chars is_space (str_repeat " " n) = true.
Proof. induction n as [|n IH]; [reflexivity | exact IH]. Qed.

Lemma take_digits_app (ds tail : string) :
  all_chars is_digit ds = true ->
  match tail with String c _ => is_digit c = false | EmptyString => True end ->
  take_digits (ds +:+ tail) = ds.
Proof.
  intros Hds Htail. induction ds as [|d ds IH]; cbn [String.append].
  - destruct tail as [|c tail]; [reflexivity|]. cbn [take_digits]. now rewrite Htail.
  - cbn [all_chars] in Hds. apply andb_true_iff in Hds as [Hd Hds].
    cbn [take_digits]. rewrite Hd. now rewrite IH.
Qed.

Lemma version_match_line (macro : string) (n m : nat) (ds tail : string) :
  match macro with String c _ => is_space c = false | EmptyString => False end ->
  ds <> "" ->
  all_chars is_digit ds = true ->
  match tail with String c _ => is_digit c = false | EmptyString => True end ->
  version_match macro
    ("#define" +:+ str_repeat " " (S n) +:+ macro +:+ str_repeat " " (S m)
     +:+ ds +:+ tail)
  = Some ds.
Proof.
  intros Hmacro Hne Hds Htail. unfold version_match.
  rewrite (proj2 (strip_prefix_spec "#define" _ _) eq_refl).
  cbn [mbind option_bind str_repeat String.append spaces1 is_space Ascii.eqb Bool.eqb].
  cbn [mbind option_bind].
  assert (Hs1 : forall X, skip_spaces (str_repeat " " n +:+ macro +:+ X) = macro +:+ X).
  { intros X. apply skip_spaces_app; [apply all_spaces|].
    destruct macro; [contradiction | exact Hmacro]. }
  rewrite Hs1. rewrite (proj2 (strip_prefix_spec macro _ _) eq_refl).
  cbn [mbind option_bind String.append spaces1 is_space Ascii.eqb Bool.eqb].
  cbn [mbind option_bind].
  destruct ds as [|d ds]; [contradiction|].
  assert (Hd : is_digit d = true)
    by (cbn [all_chars] in Hds; now apply andb_true_iff in Hds as [? _]).
  assert (Hs2 : skip_spaces (str_repeat " " m +:+ String d ds +:+ tail)
                = String d ds +:+ tail).
  { apply skip_spaces_app; [apply all_spaces | now apply digit_not_space]. }
  rewrite Hs2, (take_digits_app (String d ds) tail Hds Htail). reflexivity.
Qed.

(** X16: a line that is [#define], one or more spaces, the macro name, one
    or more spaces, a run of digits and then nothing or a text that does not
    start with a digit is recognized, and the captured text is the whole run
    of digits; a line that does not start with the character [#], such as an
    indented one, is not. *)
Theorem X16_version_line_recognized (macro : string) (n m : nat) (ds tail : string)
  (c : ascii) (rest : string) :
  match macro with String c _ => is_space c = false | EmptyString => False end ->
  ds <> "" ->
  all_chars is_digit ds = true ->
  match tail with String c _ => is_digit c = false | EmptyString => True end ->
  version_match macro
    ("#define" +:+ str_repeat " " (S n) +:+ macro +:+ str_repeat " " (S m)
     +:+ ds +:+ tail)
  = Some ds
  /\ (c <> "#"%char -> version_match macro (String c rest) = None).
Proof.
  intros Hmacro Hne Hds Htail. split; [now apply version_match_line|].
  intros Hc. unfold version_match. cbn [strip_prefix].
  destruct (Ascii.eqb_spec "#" c) as [<-|_]; [contradiction | reflexivity].
Qed.

Lemma X16_version_line_recognized_witness :
  version_match "LVGL_VERSION_MAJOR"
    ("#define" +:+ str_repeat " " 3 +:+ "LVGL_VERSION_MAJOR" +:+ str_repeat " " 1
     +:+ "08" +:+ " /* major */")
  = Some "08"
  /\ (" "%char <> "#"%char ->
      version_match "LVGL_VERSION_MAJOR" (String " " "#define LVGL_VERSION_MAJOR 8") = None).
Proof.
  apply (X16_version_line_recognized "LVGL_VERSION_MAJOR" 2 0 "08" " /* major */"
           " " "#define LVGL_VERSION_MAJOR 8");
    try reflexivity.
  discriminate.
Defined.

Lemma spaces_repeat (sp : string) :
  all_chars is_space sp = true -> sp = str_repeat " " (String.length sp).
Proof.
  induction sp as [|c sp IH]; [reflexivity|]. cbn [all_chars String.length str_repeat].
  intros [Hc Hsp]%andb_true_iff. apply Ascii.eqb_eq in Hc as ->.
  cbn [String.append]. f_equal. now apply IH.
Qed.

(** X17: the pattern compiled for a version macro matches at the start of a
    line exactly when the line is [#define], one or more spaces, the macro
    name, one or more spaces and one or more digits, followed by
    anything. *)
Theorem X17_version_pattern_language (macro line : string) :
  re.match_ (version_regex macro) (Some line) = Ok true
  <-> exists n m ds tail,
        line = "#define" +:+ str_repeat " " (S n) +:+ macro
               +:+ str_repeat " " (S m) +:+ ds +:+ tail
        /\ ds <> "" /\ all_chars is_digit ds = true.
Proof.
  cbn [re.match_].
  assert (Hm : re.match_from true (version_regex macro) line = true
               <-> exists n m ds tail,
                     line = "#define" +:+ str_repeat " " (S n) +:+ macro
                            +:+ str_repeat " " (S m) +:+ ds +:+ tail
                     /\ ds <> "" /\ all_chars is_digit ds = true).
  2:{ split; [intros [= H]; now apply Hm | intros H; f_equal; now apply Hm]. }
  rewrite match_from_correct. unfold version_regex. split.
  - intros (w & rest & -> & H).
    apply matches_seq_inv in H as (w0 & t0 & -> & H0 & H).
    inversion H0; subst. cbn [re.is_empty andb String.append] in *.
    apply matches_seq_inv in H as (w1 & t1 & -> & ->%matches_lit & H).
    cbn [re.is_empty andb] in H.
    apply matches_seq_inv in H as (w2 & t2 & -> & H2 & H).
    apply (matches_plus_class _ _ matches_space) in H2 as (c2 & sp2 & -> & Hc2 & Hsp2).
    cbn [re.is_empty andb] in H.
    apply matches_seq_inv in H as (w3 & t3 & -> & ->%matches_lit & H).
    rewrite andb_false_l in H.
    apply matches_seq_inv in H as (w4 & w5 & -> & H4 & H5).
    apply (matches_plus_class _ _ matches_space) in H4 as (c4 & sp4 & -> & Hc4 & Hsp4).
    apply (matches_plus_class _ _ matches_digit) in H5 as (d & ds & -> & Hd & Hds).
    exists (String.length sp2), (String.length sp4), (String d ds), rest.
    split; [|split; [discriminate | cbn [all_chars]; now rewrite Hd, Hds]].
    apply Ascii.eqb_eq in Hc2 as ->. apply Ascii.eqb_eq in Hc4 as ->.
    cbn [str_repeat]. rewrite <- (spaces_repeat sp2 Hsp2), <- (spaces_repeat sp4 Hsp4).
    do 4 (cbn [String.append]; rewrite ?str_app_assoc). reflexivity.
  - intros (n & m & ds & tail & -> & Hne & Hds).
    destruct ds as [|d ds]; [contradiction|].
    cbn [all_chars] in Hds. apply andb_true_iff in Hds as [Hd Hds].
    exists ("#define" +:+ str_repeat " " (S n) +:+ macro +:+ str_repeat " " (S m)
            +:+ String d ds), tail.
    split; [do 4 (cbn [String.append]; rewrite ?str_app_assoc); reflexivity|].
    change ("#define" +:+ str_repeat " " (S n) +:+ macro +:+ str_repeat " " (S m)
            +:+ String d ds)
      with ("" +:+ "#define" +:+ str_repeat " " (S n) +:+ macro
            +:+ str_repeat " " (S m) +:+ String d ds).
    constructor; [constructor|]. cbn [re.is_empty andb].
    constructor; [now apply matches_lit|].
    constructor.
    { apply (matches_plus_class _ _ matches_space).
      exists " "%char, (str_repeat " " n). repeat split. apply all_spaces. }
    constructor; [now apply matches_lit|].
    constructor.
    { apply (matches_plus_class _ _ matches_space).
      exists " "%char, (str_repeat " " m). repeat split. apply all_spaces. }
    apply (matches_plus_class _ _ matches_digit); eauto 6.
Qed.

Lemma strip_prefix_same_length (m1 m2 r a b : string) :
  strip_prefix m1 r = Some a -> strip_prefix m2 r = Some b ->
  String.length m1 = String.length m2 -> m1 = m2.
Proof.
  revert m2 r. induction m1 as [|c m1 IH]; intros [|d m2] r H1 H2 Hl;
    try discriminate Hl; [reflexivity|].
  cbn [strip_prefix] in H1, H2. destruct r as [|e r]; [discriminate|].
  destruct (Ascii.eqb_spec c e) as [->|]; [|discriminate].
  destruct (Ascii.eqb_spec d e) as [->|]; [|discriminate].
  f_equal. apply (IH m2 r H1 H2). now injection Hl.
Qed.

Lemma version_match_exclusive (m1 m2 line digits : string) :
  String.length m1 = String.length m2 -> m1 <> m2 ->
  version_match m1 line = Some digits -> version_match m2 line = None.
Proof.
  intros Hl Hne H1. unfold version_match in *.
  destruct (strip_prefix "#define" line) as [r1|]; [|reflexivity].
  cbn [mbind option_bind] in *.
  destruct (spaces1 r1) as [r2|]; [|reflexivity]. cbn [mbind option_bind] in *.
  destruct (strip_prefix m1 r2) as [r3|] eqn:E1; [|discriminate].
  destruct (strip_prefix m2 r2) as [r3'|] eqn:E2; [|reflexivity].
  exfalso. apply Hne. exact (strip_prefix_same_length m1 m2 r2 r3 r3' E1 E2 Hl).
Qed.

Lemma scan_field_unmatched (macro : string) (field : N) (line : string) :
  version_match macro line = None -> scan_field macro field line = field.
Proof. intros H. unfold scan_field. rewrite H. now destruct (N.eqb field 0). Qed.

(** X18: a line of the header changes at most one of the three version
    fields: at least two of them are after the line what they were
    before. *)
Theorem X18_line_sets_one_field (v : lvgl_version) (line : string) :
  let v' := scan_line v line in
  (lvgl_version_minor v' = lvgl_version_minor v
   /\ lvgl_version_patch v' = lvgl_version_patch v)
  \/ (lvgl_version_major v' = lvgl_version_major v
      /\ lvgl_version_patch v' = lvgl_version_patch v)
  \/ (lvgl_version_major v' = lvgl_version_major v
      /\ lvgl_version_minor v' = lvgl_version_minor v).
Proof.
  cbn zeta. unfold scan_line.
  cbn [lvgl_version_major lvgl_version_minor lvgl_version_patch].
  set (l := strip_eol line).
  destruct (version_match major_macro l) as [d|] eqn:EM.
  - left. split; apply scan_field_unmatched;
      apply (version_match_exclusive major_macro _ l d); try exact EM;
      try reflexivity; discriminate.
  - right. rewrite (scan_field_unmatched major_macro _ l EM).
    destruct (version_match minor_macro l) as [d|] eqn:Em.
    + left. split; [reflexivity|]. apply scan_field_unmatched.
      apply (version_match_exclusive minor_macro _ l d); try exact Em;
        try reflexivity; discriminate.
    + right. split; [reflexivity|]. now apply scan_field_unmatched.
Qed.

Lemma string_of_uint_digits (d : Decimal.uint) :
  all_chars is_digit (NilEmpty.string_of_uint d) = true.
Proof. induction d; cbn [NilEmpty.string_of_uint all_chars]; try reflexivity; exact IHd. Qed.

Lemma str_int_digits (n : N) : all_chars is_digit (str_int n) = true.
Proof. apply string_of_uint_digits. Qed.

Lemma str_int_nonempty (n : N) : str_int n <> "".
Proof.
  unfold str_int. destruct n as [|p]; [discriminate|]. cbn [N.to_uint].
  pose proof (Unsigned.to_uint_nonnil p) as H.
  destruct (Pos.to_uint p); [contradiction | discriminate..].
Qed.

Lemma int_digits_of_uint_acc (d : Decimal.uint) (p : positive) :
  int_digits (NilEmpty.string_of_uint d) (N.pos p) = N.pos (Pos.of_uint_acc d p).
Proof.
  revert p. induction d; intros p;
    cbn [NilEmpty.string_of_uint int_digits Pos.of_uint_acc];
    [reflexivity | rewrite <- IHd; f_equal; vm_compute digit_value; lia ..].
Qed.

Lemma int_digits_of_uint (d : Decimal.uint) :
  int_digits (NilEmpty.string_of_uint d) 0 = Pos.of_uint d.
Proof.
  induction d; cbn [NilEmpty.string_of_uint int_digits Pos.of_uint];
    [reflexivity | exact IHd | apply int_digits_of_uint_acc ..].
Qed.

Lemma int_str_int (n : N) : int (str_int n) = n.
Proof.
  unfold int, str_int. rewrite int_digits_of_uint. apply DecimalN.Unsigned.of_to.
Qed.

Lemma not_eol_split (s : string) :
  all_chars not_eol s = true
  <-> all_chars not_CR s = true /\ all_chars not_LF s = true.
Proof.
  induction s as [|c s IH]; cbn [all_chars]; [tauto|].
  rewrite !andb_true_iff, IH. unfold not_eol, not_CR, not_LF.
  rewrite andb_true_iff, (Ascii.eqb_sym CR c), (Ascii.eqb_sym LF c). tauto.
Qed.

Lemma split_lines_line (body rest : string) :
  all_chars not_LF body = true ->
  split_lines (body +:+ String LF rest) = (body +:+ String LF "") :: split_lines rest.
Proof.
  induction body as [|c body IH]; cbn [String.append all_chars]; intros Hb.
  - reflexivity.
  - apply andb_true_iff in Hb as [Hc Hb]. cbn [split_lines].
    unfold not_LF in Hc. apply negb_true_iff in Hc. rewrite Hc.
    now rewrite (IH Hb).
Qed.

Lemma universal_newlines_app (body rest : string) :
  all_chars not_CR body = true ->
  universal_newlines (body +:+ rest) = body +:+ universal_newlines rest.
Proof.
  induction body as [|c body IH]; cbn [String.append all_chars]; intros Hb.
  - reflexivity.
  - apply andb_true_iff in Hb as [Hc Hb]. cbn [universal_newlines].
    unfold not_CR in Hc. apply negb_true_iff in Hc. rewrite Hc.
    now rewrite (IH Hb).
Qed.

(** A line without a carriage return that ends with a line feed is read as
    it is stored. *)
Lemma readlines_line (body rest : string) :
  all_chars not_eol body = true ->
  readlines (body +:+ String LF rest) = (body +:+ String LF "") :: readlines rest.
Proof.
  intros [Hcr Hlf]%not_eol_split. unfold readlines.
  rewrite (universal_newlines_app body _ Hcr).
  change (universal_newlines (String LF rest)) with (String LF (universal_newlines rest)).
  now apply split_lines_line.
Qed.

Lemma remove_char_app (c : ascii) (s t : string) :
  remove_char c (s +:+ t) = remove_char c s +:+ remove_char c t.
Proof.
  induction s as [|d s IH]; [reflexivity|]. cbn [String.append remove_char].
  destruct (Ascii.eqb c d); [exact IH | cbn [String.append]; now rewrite IH].
Qed.

Lemma strip_eol_line (body : string) :
  all_chars not_eol body = true -> strip_eol (body +:+ String LF "") = body.
Proof.
  intros Hb. unfold strip_eol. rewrite !replace_char, !remove_char_app.
  unfold not_eol in Hb. rewrite all_chars_and in Hb.
  apply andb_true_iff in Hb as [Hcr Hlf].
  rewrite (remove_char_absent CR body Hcr), (remove_char_absent LF body Hlf).
  cbn. apply str_app_nil_r.
Qed.

Lemma digit_not_eol (c : ascii) : is_digit c = true -> not_eol c = true.
Proof.
  intros H. unfold not_eol.
  destruct (Ascii.eqb_spec CR c) as [<-|_]; [vm_compute in H; discriminate|].
  destruct (Ascii.eqb_spec LF c) as [<-|_]; [vm_compute in H; discriminate|].
  reflexivity.
Qed.

Lemma define_line_scanned (macro : string) (value : N) (rest : string) :
  all_chars not_eol macro = true ->
  readlines (define_line macro value +:+ rest)
  = define_line macro value :: readlines rest
  /\ strip_eol (define_line macro value)
     = "#define " +:+ macro +:+ " " +:+ str_int value.
Proof.
  intros Hm. unfold define_line.
  assert (Hbody : all_chars not_eol ("#define " +:+ macro +:+ " " +:+ str_int value) = true).
  { rewrite !all_chars_app, Hm.
    rewrite (all_chars_impl is_digit not_eol _ digit_not_eol (str_int_digits value)).
    reflexivity. }
  split.
  - replace (("#define " +:+ macro +:+ " " +:+ str_int value +:+ String LF "") +:+ rest)
      with (("#define " +:+ macro +:+ " " +:+ str_int value) +:+ String LF rest)
      by (rewrite ?str_app_assoc; cbn [String.append]; rewrite ?str_app_assoc; reflexivity).
    rewrite readlines_line;
      [rewrite ?str_app_assoc; cbn [String.append]; rewrite ?str_app_assoc; reflexivity|].
    exact Hbody.
  - replace ("#define " +:+ macro +:+ " " +:+ str_int value +:+ String LF "")
      with (("#define " +:+ macro +:+ " " +:+ str_int value) +:+ String LF "")
      by (rewrite ?str_app_assoc; cbn [String.append]; rewrite ?str_app_assoc; reflexivity).
    now apply strip_eol_line.
Qed.

Lemma version_match_define (macro : string) (value : N) :
  match macro with String c _ => is_space c = false | EmptyString => False end ->
  version_match macro ("#define " +:+ macro +:+ " " +:+ str_int value)
  = Some (str_int value).
Proof.
  intros Hm.
  pose proof (version_match_line macro 0 0 (str_int value) "" Hm
                (str_int_nonempty value) (str_int_digits value) I) as H.
  cbn [str_repeat] in H. rewrite !str_app_nil_r in H.
  cbn [String.append] in *. exact H.
Qed.

Lemma first_nonzero_single (x : N) : first_nonzero [x] = x.
Proof.
  unfold first_nonzero. rewrite filter_cons, filter_nil.
  destruct (decide (x <> 0%N)) as [|Hz]; [reflexivity|].
  cbn. destruct (N.eq_dec x 0%N); [congruence | contradiction].
Qed.

(** X19: a header made of the three lines that define the major, minor and
    patch macros with the decimal texts of any three numbers scans to these
    three numbers, and the version text generated from the scanned fields
    is the three decimal texts separated by dots. *)
Theorem X19_version_round_trip (major minor patch : N) :
  let lvgl_h := define_line major_macro major +:+ define_line minor_macro minor
                +:+ define_line patch_macro patch in
  get_lvgl_version lvgl_h = (mk_version major minor patch, [major; minor; patch])
  /\ gen_lvgl_version (fst (get_lvgl_version lvgl_h))
     = str_int major +:+ "." +:+ str_int minor +:+ "." +:+ str_int patch.
Proof.
  cbn zeta.
  assert (Hscan :
    fold_left scan_line
      (readlines (define_line major_macro major +:+ define_line minor_macro minor
                  +:+ define_line patch_macro patch)) (mk_version 0 0 0)
    = mk_version major minor patch).
  { destruct (define_line_scanned major_macro major
                (define_line minor_macro minor +:+ define_line patch_macro patch)
                eq_refl) as [-> HM].
    destruct (define_line_scanned minor_macro minor
                (define_line patch_macro patch) eq_refl) as [-> Hm].
    destruct (define_line_scanned patch_macro patch "" eq_refl) as [Hl Hp].
    rewrite str_app_nil_r in Hl. rewrite Hl.
    change (readlines "") with (@nil string).
    rewrite scan_lines_resolve. unfold resolve, matched_values.
    cbn [lvgl_version_major lvgl_version_minor lvgl_version_patch N.eqb].
    cbn [omap list_omap]. rewrite HM, Hm, Hp.
    rewrite !version_match_define by reflexivity.
    rewrite (version_match_exclusive major_macro minor_macro _ (str_int major)),
      (version_match_exclusive major_macro patch_macro _ (str_int major)),
      (version_match_exclusive minor_macro major_macro _ (str_int minor)),
      (version_match_exclusive minor_macro patch_macro _ (str_int minor)),
      (version_match_exclusive patch_macro major_macro _ (str_int patch)),
      (version_match_exclusive patch_macro minor_macro _ (str_int patch));
      try reflexivity; try discriminate; try (now apply version_match_define).
    cbn [fmap option_fmap option_map]. rewrite !int_str_int, !first_nonzero_single.
    reflexivity. }
  unfold get_lvgl_version. rewrite Hscan. split; reflexivity.
Qed.

(** ** More on the emitter *)

(** X20: for a function object with a name, whose declaration and call can
    be rendered, a template in which none of the four function tokens occurs
    is returned as it is by both generators. *)
Theorem X20_template_without_tokens (template : string) (σ : gmap loc c_obj)
  (function : loc) (f : c_obj) (n decl call : string) :
  σ !! function = Some f ->
  name (fields f) = Some n ->
  to_str (set_name f (Some ("safe_" +:+ n))) false = Ok decl ->
  gen_func_call f = Ok call ->
  ~ occurs "${func_decl}" template -> ~ occurs "${func_call}" template ->
  ~ occurs "${func_ret}" template -> ~ occurs "${func_comms}" template ->
  exists σ',
    gen_func_def template σ function = Some (σ', Ok template)
    /\ gen_func_decl template σ function = Some (σ', Ok template).
Proof.
  intros Hf Hn Hd Hc H1 H2 H3 H4.
  destruct (gen_func_named template σ function f n Hf Hn) as (y & _ & Heq).
  eexists. unfold gen_func_def, gen_func_decl. rewrite Heq, Hd, Hc.
  cbn [mbind mret result_bind result_ret].
  rewrite (replace_absent "${func_decl}" decl template)
    by (discriminate || exact H1).
  rewrite (replace_absent "${func_call}" call template)
    by (discriminate || exact H2).
  rewrite (replace_absent "${func_ret}" _ template)
    by (discriminate || exact H3).
  rewrite (replace_absent "${func_comms}" "" template)
    by (discriminate || exact H4).
  split; reflexivity.
Qed.

Ltac no_occurrence :=
  let a := fresh "a" in
  let b := fresh "b" in
  let H := fresh "H" in
  intros (a & b & H);
  repeat (destruct a as [|? a]; cbn in H; try discriminate H).

Lemma X20_template_without_tokens_witness :
  exists σ',
    gen_func_def "int x;" {[ 1%positive := func_g_void_ptr ]} 1%positive
    = Some (σ', Ok "int x;")
    /\ gen_func_decl "int x;" {[ 1%positive := func_g_void_ptr ]} 1%positive
       = Some (σ', Ok "int x;").
Proof.
  apply (X20_template_without_tokens "int x;" {[ 1%positive := func_g_void_ptr ]}
           1%positive func_g_void_ptr "g" "void * safe_g(void)" "void * ret = g();").
  - vm_compute. reflexivity.
  - reflexivity.
  - reflexivity.
  - reflexivity.
  - no_occurrence.
  - no_occurrence.
  - no_occurrence.
  - no_occurrence.
Defined.

Lemma concat_empty_sep_cons (x : string) (xs : list string) :
  String.concat "" (x :: xs) = x +:+ String.concat "" xs.
Proof. destruct xs; cbn; [now rewrite str_app_nil_r | reflexivity]. Qed.

Lemma gen_func_wrapper_text (template : string) (σ : gmap loc c_obj) (function : loc)
  (f : c_obj) (n : string) :
  σ !! function = Some f ->
  name (fields f) = Some n ->
  exists y, σ !! y = None /\
    gen_func template σ function
    = Some (<[y := set_name f (Some ("safe_" +:+ n))]> σ, wrapper_text template f n).
Proof. exact (gen_func_named template σ function f n). Qed.

(** X21: when the list holds the identities of function objects with names
    whose texts can all be generated, the loop over the list returns the
    contents followed by these texts, in the order of the list and each
    followed by two line ends; the text for a function depends on the
    function object alone and not on what was generated before it; and every
    object that was in the store before the loop is still there,
    unchanged. *)
Theorem X21_contents_of_all_functions (template : string) (funcs : list loc)
  (fs : list c_obj) (texts : list string) (σ : gmap loc c_obj) (content : string) :
  Forall2 (fun l f => σ !! l = Some f) funcs fs ->
  Forall2 (fun f text => exists n, name (fields f) = Some n
                           /\ wrapper_text template f n = Ok text) fs texts ->
  exists σ',
    gen_contents template σ funcs content
    = Some (σ', Ok (content
                    +:+ String.concat "" (map (fun text => text +:+ CRLF +:+ CRLF) texts)))
    /\ (forall l o, σ !! l = Some o -> σ' !! l = Some o).
Proof.
  revert fs texts σ content.
  induction funcs as [|l funcs IH]; intros fs texts σ content Hfs Htexts.
  - inversion Hfs; subst. inversion Htexts; subst.
    exists σ. split; [cbn; now rewrite str_app_nil_r | auto].
  - inversion Hfs as [|? f ? fs' Hl Hrest]; subst.
    inversion Htexts as [|? text ? texts' (n & Hn & Ht) Htexts']; subst.
    destruct (gen_func_wrapper_text template σ l f n Hl Hn) as (y & Hy & Heq).
    assert (Hframe : forall l' o, σ !! l' = Some o ->
              <[y := set_name f (Some ("safe_" +:+ n))]> σ !! l' = Some o).
    { intros l' o Ho. rewrite lookup_insert_ne; [exact Ho | congruence]. }
    assert (Hrest' : Forall2
              (fun l' g => <[y := set_name f (Some ("safe_" +:+ n))]> σ !! l' = Some g)
              funcs fs').
    { clear -Hrest Hframe.
      induction Hrest; [constructor|]. constructor; [now apply Hframe | assumption]. }
    destruct (IH fs' texts' _ (content +:+ (text +:+ CRLF +:+ CRLF)) Hrest' Htexts')
      as (σ' & Heq' & Hframe').
    exists σ'. split; [|now auto].
    cbn [gen_contents]. rewrite Heq, Ht. cbn [mbind option_bind].
    rewrite Heq'. cbn [map]. rewrite concat_empty_sep_cons.
    now rewrite !str_app_assoc.
Qed.

Lemma X21_contents_of_all_functions_witness :
  exists σ',
    gen_contents "${func_call}"
      (<[2%positive := c_func_obj_decl (mk_fields (Some "f") [] [] [] "void" 0 0) []
                         "void" [c_obj_decl (mk_fields None [] [] [] "void" 0 0)]]>
         {[ 1%positive := func_g_void_ptr ]})
      [1%positive; 2%positive] ""
    = Some (σ', Ok ("" +:+ String.concat ""
                            (map (fun text => text +:+ CRLF +:+ CRLF)
                               ["void * ret = g();"; "f();"])))
    /\ (forall l o,
          (<[2%positive := c_func_obj_decl (mk_fields (Some "f") [] [] [] "void" 0 0) []
                             "void" [c_obj_decl (mk_fields None [] [] [] "void" 0 0)]]>
             {[ 1%positive := func_g_void_ptr ]} : gmap loc c_obj) !! l = Some o ->
          σ' !! l = Some o).
Proof.
  apply (X21_contents_of_all_functions "${func_call}" [1%positive; 2%positive]
           [func_g_void_ptr;
            c_func_obj_decl (mk_fields (Some "f") [] [] [] "void" 0 0) [] "void"
              [c_obj_decl (mk_fields None [] [] [] "void" 0 0)]]
           ["void * ret = g();"; "f();"]).
  - constructor; [vm_compute; reflexivity|].
    constructor; [vm_compute; reflexivity | constructor].
  - constructor; [exists "g"; split; reflexivity|].
    constructor; [exists "f"; split; reflexivity | constructor].
Defined.

Lemma replace_at_front (c : ascii) (old' new s : string) :
  replace (String c old') new (String c old' +:+ s)
  = new +:+ replace (String c old') new s.
Proof.
  rewrite !replace_nonempty. cbn [String.append replace_from].
  assert (Hp : String.prefix (String c old') (String c (old' +:+ s)) = true)
    by (apply prefix_spec; now exists s).
  rewrite Hp.
  replace (String.length (String c old') - 1) with (String.length old')
    by (cbn [String.length]; lia).
  now rewrite replace_from_skip.
Qed.

Lemma remove_eol_chars (e : string) :
  all_chars (fun c => negb (not_eol c)) e = true ->
  remove_char LF (remove_char CR e) = "".
Proof.
  induction e as [|c e IH]; [reflexivity|]. cbn [all_chars remove_char].
  intros [Hc He]%andb_true_iff. unfold not_eol in Hc.
  destruct (Ascii.eqb CR c) eqn:E1; [now apply IH|].
  cbn [remove_char]. destruct (Ascii.eqb LF c) eqn:E2; [now apply IH|].
  discriminate Hc.
Qed.

Lemma strip_eol_app_line_end (body line_end : string) :
  all_chars not_eol body = true ->
  all_chars (fun c => negb (not_eol c)) line_end = true ->
  strip_eol (body +:+ line_end) = body.
Proof.
  intros Hb He. unfold strip_eol. rewrite !replace_char, !remove_char_app.
  rewrite (remove_eol_chars line_end He), str_app_nil_r.
  unfold not_eol in Hb. rewrite all_chars_and in Hb.
  apply andb_true_iff in Hb as [Hcr Hlf].
  now rewrite (remove_char_absent CR body Hcr), (remove_char_absent LF body Hlf).
Qed.

(** X22: the line of a document template that holds the contents token and
    its line end, whichever it is, becomes the contents followed by a
    carriage return and a newline, when none of the four other document
    tokens occurs in that text. *)
Theorem X22_contents_line (v : lvgl_version) (date time contents filename : string)
  (line_end : string) :
  all_chars (fun c => negb (not_eol c)) line_end = true ->
  ~ occurs "${lvgl_version}" (contents +:+ CRLF) ->
  ~ occurs "${filename}" (contents +:+ CRLF) ->
  ~ occurs "${date}" (contents +:+ CRLF) ->
  ~ occurs "${time}" (contents +:+ CRLF) ->
  replace_variables v date time (normalize_line ("${contents_here}" +:+ line_end))
    contents filename
  = contents +:+ CRLF.
Proof.
  intros He H1 H2 H3 H4. unfold replace_variables, normalize_line.
  rewrite (strip_eol_app_line_end "${contents_here}" line_end eq_refl He).
  rewrite (replace_at_front "$" "{contents_here}" contents CRLF).
  replace (replace "${contents_here}" contents CRLF) with CRLF by reflexivity.
  rewrite (replace_absent "${lvgl_version}" _ _ ltac:(discriminate) H1).
  rewrite (replace_absent "${filename}" _ _ ltac:(discriminate) H2).
  rewrite (replace_absent "${date}" _ _ ltac:(discriminate) H3).
  now rewrite (replace_absent "${time}" _ _ ltac:(discriminate) H4).
Qed.

Lemma X22_contents_line_witness :
  replace_variables (mk_version 9 2 1) "2026/11/04" "10:00:00"
    (normalize_line ("${contents_here}" +:+ String LF "")) "f();" "safe_lvgl.c"
  = "f();" +:+ CRLF.
Proof.
  apply (X22_contents_line (mk_version 9 2 1) "2026/11/04" "10:00:00" "f();"
           "safe_lvgl.c" (String LF "")).
  - reflexivity.
  - no_occurrence.
  - no_occurrence.
  - no_occurrence.
  - no_occurrence.
Defined.

Lemma strip_eol_clean (line : string) : all_chars not_eol (strip_eol line) = true.
Proof.
  unfold strip_eol, not_eol. rewrite !replace_char, all_chars_and.
  rewrite remove_char_gone, andb_true_r.
  apply remove_char_all, remove_char_gone.
Qed.

Lemma load_template_fold (lines : list string) (acc : string) :
  fold_left (fun template line => template +:+ normalize_line line) lines acc
  = acc +:+ String.concat "" (map normalize_line lines).
Proof.
  revert acc. induction lines as [|l lines IH]; intros acc; cbn [fold_left map].
  - cbn. now rewrite str_app_nil_r.
  - now rewrite IH, concat_empty_sep_cons, str_app_assoc.
Qed.

(** A line that ends in any of the three ways is read with a line feed at
    its end; a lone carriage return is a line end of its own when no line
    feed follows it. *)
Lemma readlines_terminated (body line_end rest : string) :
  all_chars not_eol body = true ->
  In line_end line_ends ->
  (line_end = String CR "" -> forall r, rest <> String LF r) ->
  readlines (body +:+ line_end +:+ rest) = (body +:+ String LF "") :: readlines rest.
Proof.
  intros [Hcr Hlf]%not_eol_split He Hrest. unfold readlines.
  rewrite (universal_newlines_app body _ Hcr).
  assert (Hend : universal_newlines (line_end +:+ rest)
                 = String LF (universal_newlines rest)).
  { destruct He as [<- | [<- | [<- | []]]]; [reflexivity | | reflexivity].
    cbn [String.append universal_newlines]. rewrite Ascii.eqb_refl.
    destruct rest as [|c rest]; [reflexivity|].
    destruct (Ascii.eqb_spec c LF) as [->|_]; [|reflexivity].
    now destruct (Hrest eq_refl rest). }
  rewrite Hend. now apply split_lines_line.
Qed.

Lemma readlines_normalized (lines : list string) :
  readlines (String.concat "" (map normalize_line lines))
  = map (fun line => strip_eol line +:+ String LF "") lines.
Proof.
  induction lines as [|l lines IH]; [reflexivity|].
  cbn [map]. rewrite concat_empty_sep_cons. unfold normalize_line at 1.
  rewrite str_app_assoc, readlines_terminated, IH;
    [reflexivity | apply strip_eol_clean | right; right; now left | discriminate].
Qed.

Lemma normalize_line_body (body line_end : string) :
  all_chars not_eol body = true ->
  all_chars (fun c => negb (not_eol c)) line_end = true ->
  normalize_line (body +:+ line_end) = body +:+ CRLF.
Proof.
  intros Hb He. unfold normalize_line. now rewrite strip_eol_app_line_end.
Qed.

Lemma load_template_lines (content : string) :
  load_template content = String.concat "" (map normalize_line (readlines content)).
Proof. unfold load_template. now rewrite load_template_fold. Qed.

(** Lines that all end with a carriage return do not begin with a line
    feed. *)
Lemma CR_lines_start (bodies : list string) (r : string) :
  Forall (fun body => all_chars not_eol body = true) bodies ->
  String.concat "" (map (fun body => body +:+ String CR "") bodies) <> String LF r.
Proof.
  intros Hb. destruct Hb as [|body bodies Hbody _]; [discriminate|].
  cbn [map]. rewrite concat_empty_sep_cons.
  destruct body as [|c body]; cbn [String.append]; [discriminate|].
  intros [= -> _]. cbn [all_chars] in Hbody.
  apply andb_true_iff in Hbody as [Hc _]. discriminate Hc.
Qed.

Lemma readlines_uniform (bodies : list string) (line_end : string) :
  Forall (fun body => all_chars not_eol body = true) bodies ->
  In line_end line_ends ->
  readlines (String.concat "" (map (fun body => body +:+ line_end) bodies))
  = map (fun body => body +:+ String LF "") bodies.
Proof.
  intros Hb He. induction Hb as [|body bodies Hbody Hb IH]; [reflexivity|].
  cbn [map]. rewrite concat_empty_sep_cons, str_app_assoc.
  rewrite readlines_terminated, IH; [reflexivity | exact Hbody | exact He |].
  intros -> r. now apply CR_lines_start.
Qed.

(** X23: a loaded function template is the lines of the template file put
    one after the other, each with its line end taken out and one carriage
    return and one line feed put at its end. A line, as the file delivers
    it, is a text without carriage return or line feed, followed by a line
    feed or, for the last one only, by nothing. Written to a file and read
    again the template gives the same lines, so loading it again changes
    nothing; and a file whose lines all end with a line feed, all with a
    carriage return, or all with both, loads to the same template. *)
Theorem X23_load_template_normalizes (content : string) :
  load_template content = String.concat "" (map normalize_line (readlines content))
  /\ Forall (fun line => exists body,
               all_chars not_eol body = true
               /\ (line = body +:+ String LF "" \/ line = body)
               /\ normalize_line line = body +:+ CRLF)
       (readlines content)
  /\ readlines (load_template content)
     = map (fun line => strip_eol line +:+ String LF "") (readlines content)
  /\ load_template (load_template content) = load_template content
  /\ (forall bodies line_end,
        Forall (fun body => all_chars not_eol body = true) bodies ->
        In line_end line_ends ->
        load_template (String.concat "" (map (fun body => body +:+ line_end) bodies))
        = String.concat "" (map (fun body => body +:+ CRLF) bodies)).
Proof.
  assert (H3 : readlines (load_template content)
               = map (fun line => strip_eol line +:+ String LF "") (readlines content))
    by (rewrite load_template_lines; apply readlines_normalized).
  split; [apply load_template_lines|]. split; [|split; [exact H3|split]].
  - destruct (readlines_partition content) as (Hcat & _ & Hshape).
    pose proof (universal_newlines_no_CR content) as Hcr. rewrite <- Hcat in Hcr.
    revert Hshape Hcr. generalize (readlines content) as lines.
    induction lines as [|l lines IH]; intros Hshape Hcr; [constructor|].
    rewrite concat_empty_sep_cons, all_chars_app in Hcr.
    apply andb_true_iff in Hcr as [Hl Hcr].
    inversion Hshape as [|? ? (body & Hb & Hline) Hrest]; subst.
    constructor; [|now apply IH]. exists body.
    assert (Hbody : all_chars not_eol body = true).
    { apply not_eol_split. split; [|exact Hb].
      destruct Hline as [-> | ->]; [|exact Hl].
      rewrite all_chars_app in Hl. now apply andb_true_iff in Hl as [Hl _]. }
    split; [exact Hbody|]. split; [exact Hline|].
    destruct Hline as [-> | ->].
    + now apply normalize_line_body.
    + rewrite <- (str_app_nil_r body) at 1. now apply normalize_line_body.
  - rewrite (load_template_lines (load_template content)), H3, load_template_lines.
    rewrite map_map. f_equal. apply map_ext. intros l.
    apply normalize_line_body; [apply strip_eol_clean | reflexivity].
  - intros bodies line_end Hb He.
    rewrite load_template_lines, (readlines_uniform bodies line_end Hb He), map_map.
    f_equal. apply List.map_ext_in. intros body Hin.
    apply normalize_line_body; [|reflexivity].
    rewrite List.Forall_forall in Hb. now apply Hb.
Qed.

Lemma X23_load_template_normalizes_witness :
  load_template (String.concat "" (map (fun body => body +:+ String CR "")
                                     ["void ${func_name}(void);"; ""]))
  = String.concat "" (map (fun body => body +:+ CRLF) ["void ${func_name}(void);"; ""]).
Proof.
  apply (X23_load_template_normalizes "").
  - repeat constructor.
  - right. now left.
Defined.

(** Line ends may differ from line to line: a file with one line ended by a
    carriage return and one by a line feed loads as two lines. *)
Example load_template_mixed_line_ends :
  load_template (String "a" (String CR (String "b" (String LF ""))))
  = "a" +:+ CRLF +:+ "b" +:+ CRLF.
Proof. reflexivity. Qed.

(** ** Parameters *)

(** X24: a declaration without alignment of an object whose declarator has
    [A] array levels outside [P] pointer levels around an identifier type,
    as a named parameter is, converts to a plain object with the
    declaration's name, qualifiers and storage, the first token of the type
    and the two depths, whichever of the array, pointer and plain branches
    is taken; the function specifiers are not kept. *)
Theorem X24_object_declaration_conversion (nm : option string)
  (quals storage funcspec : list string) (A P : nat) (first : string)
  (others : list string) :
  c_decl_to_c_obj
    (Decl nm quals [] storage funcspec
       (array_of A (pointer_to P (TypeDecl (IdentifierType (first :: others))))))
  = Ok (c_obj_decl (mk_fields nm quals [] storage first A P)).
Proof.
  pose proof (get_nesting_type_declarator A P (IdentifierType (first :: others))) as H.
  cbn beta iota in H.
  destruct A as [|A]; [destruct P as [|P]|];
    cbn [array_of pointer_to c_decl_to_c_obj length Nat.eqb negb] in *;
    rewrite H; reflexivity.
Qed.

(** X25: a parameter without a name, which the front-end delivers as a
    [Typename] node, converts only when its type is plain: the object then
    has the node's name and qualifiers and no array or pointer level; with
    a pointer or an array around the type the conversion raises a plain
    exception, which [__add_lvgl_func__] does not catch when the parameter
    belongs to a function it converts. *)
Theorem X25_unnamed_parameter_conversion (nm : option string) (quals : list string)
  (first : string) (others : list string) (t : node) :
  c_decl_to_c_obj (Typename nm quals (TypeDecl (IdentifierType (first :: others))))
  = Ok (c_obj_decl (mk_fields nm quals [] [] first 0 0))
  /\ c_decl_to_c_obj (Typename nm quals (PtrDecl t))
     = Raise (Exception "TODO, node: ")
  /\ c_decl_to_c_obj (Typename nm quals (ArrayDecl t))
     = Raise (Exception "TODO, node: ")
  /\ forall self func_name fquals storage funcspec rt rest,
       in_blacklist (blacklist_func_patterns self) (Some func_name) = Ok false ->
       already_added (func_list self) (Some func_name) = false ->
       parse_header_loop self
         (Decl (Some func_name) fquals [] storage funcspec
            (FuncDecl (Some [Typename nm quals (PtrDecl t)]) rt) :: rest)
       = (self, Raise (Exception "TODO, node: ")).
Proof.
  split; [reflexivity|]. split; [reflexivity|]. split; [reflexivity|].
  intros self func_name fquals storage funcspec rt rest Hb Ha.
  cbn [parse_header_loop].
  erewrite add_lvgl_func_convert; [|reflexivity | exact Hb | exact Ha].
  reflexivity.
Qed.

Lemma X25_unnamed_parameter_conversion_witness :
  parse_header_loop new_generator
    (Decl (Some "f") [] [] [] []
       (FuncDecl (Some [Typename None [] (PtrDecl int_t)]) void_t) :: [decl_f_void])
  = (new_generator, Raise (Exception "TODO, node: ")).
Proof.
  apply (proj2 (proj2 (proj2
           (X25_unnamed_parameter_conversion None [] "int" [] int_t)))
           new_generator "f" [] [] [] void_t [decl_f_void]);
    reflexivity.
Defined.
